(** * signalk-to-mongodb-atlas: the buffering core of [mongodb.js]

    A shallow embedding of the [MongoDb] class (point builder, bounded
    buffer, housekeeping and the asynchronous flush) and the properties
    of it that the specification states.

    Conventions of the embedding.
    - Configuration numbers, sizes and times (milliseconds) are integers [Z].
    - [new Date()] is a parameter [now] of every synchronous segment: the
      code between two suspension points runs to completion and reads one
      clock value.
    - The [Map] holding the buffer is the ECMAScript entry list: a slot per
      insertion, emptied (not removed) by [delete], so that the iterator a
      flush keeps across its [await]s stays valid.
    - An [async] function is split at its [await]: [flush] runs up to the
      first request, [flush_resume] runs from a response to the next request
      or to the end; the local variables alive across the [await] are
      a [FlushFrame].
    - The caller's fields of a point and [JSON.stringify] are parameters;
      the plugin builds a fresh object for every value it sends, so a
      buffered point is a value of its own. *)

From Stdlib Require Import String Ascii DecimalString.
From Stdlib Require Import ZArith List Bool Lia.
Import ListNotations.
Open Scope Z_scope.

(** ** Numbers used as loop counters

    [Math.floor(size / batchSize)] is a double: dividing by zero gives
    [Infinity] (or [NaN] for 0/0), and [while (batches--)] tests it for
    truthiness. *)
Module JsNum.

Inductive Num : Type :=
| Fin (z : Z)
| Inf
| NaN.

(** [Math.floor(a / b)] on integer arguments with [0 <= a]. *)
Definition floor_div (a b : Z) : Num :=
  if b =? 0 then (if a =? 0 then NaN else Inf) else Fin (a / b).

(** [n++] *)
Definition succ (n : Num) : Num :=
  match n with Fin z => Fin (z + 1) | Inf => Inf | NaN => NaN end.

(** the value left in [n] by [n--] *)
Definition pred (n : Num) : Num :=
  match n with Fin z => Fin (z - 1) | Inf => Inf | NaN => NaN end.

(** ToBoolean *)
Definition truthy (n : Num) : bool :=
  match n with Fin z => negb (z =? 0) | Inf => true | NaN => false end.

End JsNum.

(** ** 32-bit integer conversions of the bitwise operators *)
Module Int32.

Definition two32 : Z := 2 ^ 32.

(** ToInt32 *)
Definition to_int32 (z : Z) : Z := (z + 2 ^ 31) mod two32 - 2 ^ 31.

(** ToUint32, written [x >>> 0] in the source *)
Definition to_uint32 (z : Z) : Z := z mod two32.

(** [a ^ b]: the operands are converted to 32-bit integers, and so is the
    result *)
Definition xor (a b : Z) : Z := to_int32 (Z.lxor (to_int32 a) (to_int32 b)).

End Int32.

(** ** The ECMAScript [Map], keyed by numbers *)
Module JsMap.
Section JsMap.
Variable V : Type.

(** An entry, or the hole left by a deleted entry. *)
Definition slot : Type := option (Z * V).
Definition t : Type := list slot.

Definition empty : t := [].

Definition is_key (k : Z) (s : slot) : bool :=
  match s with Some (k', _) => k' =? k | None => false end.

(** live entries, in insertion order *)
Fixpoint entries (m : t) : list (Z * V) :=
  match m with
  | [] => []
  | None :: m' => entries m'
  | Some e :: m' => e :: entries m'
  end.

Definition keys (m : t) : list Z := map fst (entries m).

(** [m.size] *)
Definition size (m : t) : Z := Z.of_nat (length (entries m)).

(** [m.has(k)] *)
Definition has (k : Z) (m : t) : bool := existsb (is_key k) m.

(** [m.get(k)] *)
Fixpoint get (k : Z) (m : t) : option V :=
  match m with
  | [] => None
  | Some (k', v) :: m' => if k' =? k then Some v else get k m'
  | None :: m' => get k m'
  end.

(** [m.set(k, v)]: an existing key keeps its place, a new one is appended *)
Definition set (k : Z) (v : V) (m : t) : t :=
  if has k m
  then map (fun s => if is_key k s then Some (k, v) else s) m
  else m ++ [Some (k, v)].

(** [m.delete(k)] *)
Definition delete (k : Z) (m : t) : t :=
  map (fun s => if is_key k s then None else s) m.

(** An iterator made by [m.entries()]: the index of the next slot to
    look at, or exhausted for good. *)
Inductive iterator : Type :=
| Iter (index : nat)
| Done.

Fixpoint scan (rest : list slot) (i : nat) : option (Z * V) * iterator :=
  match rest with
  | [] => (None, Done)
  | None :: rest' => scan rest' (S i)
  | Some e :: _ => (Some e, Iter (S i))
  end.

(** [it.next().value] *)
Definition next (m : t) (it : iterator) : option (Z * V) * iterator :=
  match it with
  | Done => (None, Done)
  | Iter i => scan (skipn i m) i
  end.

(** the slots an iterator has still to visit *)
Definition remaining (m : t) (it : iterator) : list slot :=
  match it with
  | Done => []
  | Iter i => skipn i m
  end.

End JsMap.

Arguments empty {V}.
Arguments is_key {V} k s.
Arguments entries {V} m.
Arguments keys {V} m.
Arguments size {V} m.
Arguments has {V} k m.
Arguments get {V} k m.
Arguments set {V} k v m.
Arguments delete {V} k m.
Arguments scan {V} rest i.
Arguments next {V} m it.
Arguments remaining {V} m it.

End JsMap.

(** ** [settings] *)
Module settings.
Definition housekeepingMillis : Z := 30000.
Definition responseMillis : Z := 10000.
Definition deadlineMillis : Z := 25000.
Definition defaultTtlMillis : Z := 60000.
End settings.

(** ** The plugin options read by [mongodb.js] *)
Record Options : Type := {
  apiUrl : string;
  apiKey : string;
  apiMethod : string;
  batchSize : Z;
  flushSecs : option Z;   (* [None]: null or undefined *)
  maxBuffer : Z;
  ttlSecs : option Z      (* [None]: null or undefined *)
}.

(** the options with another [apiMethod] *)
Definition set_apiMethod (method : string) (o : Options) : Options :=
  {| apiUrl := apiUrl o; apiKey := apiKey o; apiMethod := method;
     batchSize := batchSize o; flushSecs := flushSecs o;
     maxBuffer := maxBuffer o; ttlSecs := ttlSecs o |}.

(** ** [superagent] requests, as the chained builder calls leave them *)
Module superagent.

Inductive Method : Type := GET | PUT | POST.

Record Request (B : Type) : Type := {
  method : Method;
  url : string;
  headers : list (string * string);
  retries : Z;
  response_timeout : option Z;
  deadline_timeout : option Z;
  body : option B
}.
Arguments method {B} r.
Arguments url {B} r.
Arguments headers {B} r.
Arguments retries {B} r.
Arguments response_timeout {B} r.
Arguments deadline_timeout {B} r.
Arguments body {B} r.

Section Builder.
Variable B : Type.

(** [superagent.put(url)] *)
Definition put (u : string) : Request B :=
  {| method := PUT; url := u; headers := []; retries := 0;
     response_timeout := None; deadline_timeout := None; body := None |}.

(** [.set(field, value)] *)
Definition set (field value : string) (r : Request B) : Request B :=
  {| method := method r; url := url r;
     headers := headers r ++ [(field, value)];
     retries := retries r;
     response_timeout := response_timeout r;
     deadline_timeout := deadline_timeout r; body := body r |}.

(** [.retry(n)] *)
Definition retry (n : Z) (r : Request B) : Request B :=
  {| method := method r; url := url r; headers := headers r;
     retries := n;
     response_timeout := response_timeout r;
     deadline_timeout := deadline_timeout r; body := body r |}.

(** [.timeout({response, deadline})] *)
Definition timeout (response deadline : Z) (r : Request B) : Request B :=
  {| method := method r; url := url r; headers := headers r;
     retries := retries r;
     response_timeout := Some response;
     deadline_timeout := Some deadline; body := body r |}.

(** [.send(data)] *)
Definition send (data : B) (r : Request B) : Request B :=
  {| method := method r; url := url r; headers := headers r;
     retries := retries r;
     response_timeout := response_timeout r;
     deadline_timeout := deadline_timeout r; body := Some data |}.
End Builder.
Arguments put {B} u.
Arguments set {B} field value r.
Arguments retry {B} n r.
Arguments timeout {B} response deadline r.
Arguments send {B} data r.

(** What the awaited request settles to: a response with its status, or a
    rejection (network failure, timeout, retries used up). *)
Inductive Response : Type :=
| resolved (status : Z)
| rejected.

End superagent.

(** ** The [MongoDb] class *)
Set Implicit Arguments.
Section MongoDb.

(** The caller's fields of a point (source, context, path, value, tags):
    opaque to the class. *)
Variable Payload : Type.

(** [JSON.stringify(point)] at the moment [getPoint] calls it, as UTF-16
    code units: it sees the caller's fields, [time] and [expiry]; [None]
    when it throws. *)
Variable stringify : Payload -> Z -> Z -> option (list Z).

(** The object handed to [send]. *)
Record Raw : Type := {
  raw_payload : Payload;
  raw_time : option Z   (* [None]: null or undefined *)
}.

(** The same object once [getPoint] has stamped it. *)
Record Point : Type := {
  payload : Payload;
  time : Z;
  expiry : Z;
  uid : Z
}.

Definition Request : Type := superagent.Request (list Point).

(** Lines written through [app.debug] and [app.error]. *)
Inductive LogEntry : Type :=
| error_point                       (* point: ...            *)
| error_send_buffer_exceeded (size : Z)  (* send: buffer exceeded: N *)
| error_send                        (* send: TypeError ...   *)
| debug_sent (batches : JsNum.Num) (sent : nat) (size : Z) (status : Z)
| error_flush.                      (* flush: ...            *)

Inductive Effect : Type :=
| app_log (l : LogEntry)
| http (r : Request).

Record MongoDb : Type := {
  buffer : JsMap.t Point;
  options : option Options;   (* [None]: null *)
  timer : bool;               (* is the housekeeping interval set *)
  flushExpiry : Z;
  flushMillis : Z;
  ttlMillis : Z;
  flushing : bool
}.

Definition set_buffer (b : JsMap.t Point) (m : MongoDb) : MongoDb :=
  {| buffer := b; options := options m; timer := timer m;
     flushExpiry := flushExpiry m; flushMillis := flushMillis m;
     ttlMillis := ttlMillis m; flushing := flushing m |}.

Definition set_flushing (f : bool) (m : MongoDb) : MongoDb :=
  {| buffer := buffer m; options := options m; timer := timer m;
     flushExpiry := flushExpiry m; flushMillis := flushMillis m;
     ttlMillis := ttlMillis m; flushing := f |}.

Definition set_flushExpiry (e : Z) (m : MongoDb) : MongoDb :=
  {| buffer := buffer m; options := options m; timer := timer m;
     flushExpiry := e; flushMillis := flushMillis m;
     ttlMillis := ttlMillis m; flushing := flushing m |}.

Definition set_timer (t : bool) (m : MongoDb) : MongoDb :=
  {| buffer := buffer m; options := options m; timer := t;
     flushExpiry := flushExpiry m; flushMillis := flushMillis m;
     ttlMillis := ttlMillis m; flushing := flushing m |}.

Definition set_options (o : option Options) (m : MongoDb) : MongoDb :=
  {| buffer := buffer m; options := o; timer := timer m;
     flushExpiry := flushExpiry m; flushMillis := flushMillis m;
     ttlMillis := ttlMillis m; flushing := flushing m |}.

Definition set_ttlMillis (t : Z) (m : MongoDb) : MongoDb :=
  {| buffer := buffer m; options := options m; timer := timer m;
     flushExpiry := flushExpiry m; flushMillis := flushMillis m;
     ttlMillis := t; flushing := flushing m |}.

Definition set_flushMillis (f : Z) (m : MongoDb) : MongoDb :=
  {| buffer := buffer m; options := options m; timer := timer m;
     flushExpiry := flushExpiry m; flushMillis := f;
     ttlMillis := ttlMillis m; flushing := flushing m |}.

(** The field initialisers and the constructor. *)
Definition new_MongoDb (now : Z) : MongoDb :=
  {| buffer := JsMap.empty; options := None; timer := false;
     flushExpiry := now; flushMillis := 0;
     ttlMillis := settings.defaultTtlMillis; flushing := false |}.

(** [start(options)] *)
Definition start (now : Z) (opts : Options) (m : MongoDb) : MongoDb :=
  let m := set_options (Some opts) m in
  let m := match ttlSecs opts with
           | Some s => set_ttlMillis (s * 1000) m
           | None => m
           end in
  let m := match flushSecs opts with
           | Some s =>
               if s >? 0
               then let m := set_flushMillis (s * 1000) m in
                    set_flushExpiry (now + flushMillis m) m
               else m
           | None => m
           end in
  set_timer true m.

(** *** [getPoint] *)

Definition hash_step (h c : Z) : Z := Int32.xor (h * 33) c.

(** [while (i--) { c = json.charCodeAt(i); ... }] *)
Fixpoint hash_loop (i : nat) (json : list Z) (hash1 hash2 : Z) : Z * Z :=
  match i with
  | O => (hash1, hash2)
  | S i' =>
      let c := nth i' json 0 in
      hash_loop i' json (hash_step hash1 c) (hash_step hash2 c)
  end.

Definition hash (json : list Z) : Z :=
  let '(hash1, hash2) := hash_loop (length json) json 5381 52711 in
  Int32.to_uint32 hash1 * 4096 + Int32.to_uint32 hash2.

Definition getPoint (now : Z) (m : MongoDb) (point : Raw) : option Point :=
  let t := match raw_time point with Some t => t | None => now end in
  let e := now + ttlMillis m in
  match stringify (raw_payload point) t e with
  | Some json =>
      Some {| payload := raw_payload point; time := t; expiry := e;
              uid := hash json |}
  | None => None   (* caught: logged, [null] returned *)
  end.
(** *** [flush] *)

(** The request of one batch. *)
Definition request (o : Options) (batch : list Point) : Request :=
  superagent.send batch
    (superagent.timeout settings.responseMillis settings.deadlineMillis
      (superagent.retry 2
        (superagent.set "api-key" (apiKey o)
          (superagent.set "accept" "json"
            (superagent.set "Content-Type" "application/json"
              (superagent.put (apiUrl o))))))).

(** The locals of a [flush] suspended at its [await]. *)
Record FlushFrame : Type := {
  fr_batches : JsNum.Num;          (* [batches], already decremented *)
  fr_iterator : JsMap.iterator;    (* [bufferIterator] *)
  fr_batch : list Point            (* [batch], the request in flight *)
}.

(** What a synchronous segment leaves: the object, what it logged and
    requested, and the flush it left suspended, if any. *)
Definition Outcome : Type := (MongoDb * list Effect * option FlushFrame)%type.

(** [while (c--) { point = bufferIterator.next().value; if (point == null)
    break; batch.push(point[1]) }], over the slots the iterator has yet
    to visit, the first of them at index [i]. *)
Fixpoint fill_from (rest : list (JsMap.slot Point)) (i : nat) (c : Z)
  : list Point * JsMap.iterator :=
  if c =? 0 then ([], JsMap.Iter i)
  else
    match rest with
    | [] => ([], JsMap.Done)
    | None :: rest' => fill_from rest' (S i) c
    | Some (_, p) :: rest' =>
        let '(batch, it) := fill_from rest' (S i) (c - 1) in
        (p :: batch, it)
    end.

Definition fill (b : JsMap.t Point) (it : JsMap.iterator) (c : Z)
  : list Point * JsMap.iterator :=
  match it with
  | JsMap.Done => ([], JsMap.Done)
  | JsMap.Iter i => fill_from (skipn i b) i c
  end.

(** The [finally] block. *)
Definition finally (now : Z) (m : MongoDb) : MongoDb :=
  set_flushing false (set_flushExpiry (now + flushMillis m) m).

(** From the test of [while (batches--)] to the [await], or to the end
    of [flush] when the loop is over. *)
Definition flush_loop (now : Z) (m : MongoDb) (batches : JsNum.Num)
    (it : JsMap.iterator) : Outcome :=
  if JsNum.truthy batches then
    match options m with
    | None => (finally now m, [app_log error_flush], None)
    | Some o =>
        let '(batch, it') := fill (buffer m) it (batchSize o) in
        (m, [http (request o batch)],
         Some {| fr_batches := JsNum.pred batches; fr_iterator := it';
                 fr_batch := batch |})
    end
  else (finally now m, [], None).

(** [flush()], up to its first [await]. *)
Definition flush (now : Z) (m : MongoDb) : Outcome :=
  if flushing m then (m, [], None)
  else
    let m := set_flushing true m in
    match options m with
    | None => (finally now m, [app_log error_flush], None)
    | Some o =>
        let batches := JsNum.floor_div (JsMap.size (buffer m)) (batchSize o) in
        let batches := if now >? flushExpiry m
                       then JsNum.succ batches else batches in
        flush_loop now m batches (JsMap.Iter 0)
    end.

(** [batch.forEach(point => this.buffer.delete(point.uid))] *)
Definition delete_batch (batch : list Point) (b : JsMap.t Point)
  : JsMap.t Point :=
  fold_left (fun b point => JsMap.delete (uid point) b) batch b.

(** [flush], from the settling of the awaited request to the next
    [await] or to the end.  On a status outside [200, 300) the [else]
    branch reads the undeclared variable [error]: the ReferenceError is
    caught by the [catch] of [flush], which ends the loop. *)
Definition flush_resume (now : Z) (m : MongoDb) (fr : FlushFrame)
    (r : superagent.Response) : Outcome :=
  match r with
  | superagent.rejected => (finally now m, [app_log error_flush], None)
  | superagent.resolved status =>
      let dbg := app_log (debug_sent (fr_batches fr) (length (fr_batch fr))
                                     (JsMap.size (buffer m)) status) in
      if (status >=? 200) && (status <? 300) then
        let m := set_buffer (delete_batch (fr_batch fr) (buffer m)) m in
        let '(m', effects, k) := flush_loop now m (fr_batches fr)
                                            (fr_iterator fr) in
        (m', dbg :: effects, k)
      else (finally now m, [dbg; app_log error_flush], None)
  end.

(** *** [send] *)
Definition send (now : Z) (point : Raw) (m : MongoDb) : Outcome :=
  match options m with
  | None => (m, [app_log error_send], None)
  | Some o =>
      if JsMap.size (buffer m) >=? maxBuffer o
      then (m, [app_log (error_send_buffer_exceeded (JsMap.size (buffer m)))],
            None)
      else
        match getPoint now m point with
        | None => (m, [app_log error_point; app_log error_send], None)
        | Some p =>
            let m := set_buffer (JsMap.set (uid p) p (buffer m)) m in
            if (JsMap.size (buffer m) >=? batchSize o)
               || (now >? flushExpiry m)
            then flush now m
            else (m, [], None)
        end
  end.

(** *** [housekeeping] *)

(** [for (const [key, point] of this.buffer) if (timeNow > point.expiry)
    this.buffer.delete(key)], over the slots still to visit. *)
Fixpoint evict (now : Z) (todo : list (JsMap.slot Point))
    (b : JsMap.t Point) : JsMap.t Point :=
  match todo with
  | [] => b
  | None :: todo' => evict now todo' b
  | Some (key, point) :: todo' =>
      evict now todo'
        (if now >? expiry point then JsMap.delete key b else b)
  end.

Definition housekeeping (now : Z) (m : MongoDb) : Outcome :=
  let m := set_buffer (evict now (buffer m) (buffer m)) m in
  if now >? flushExpiry m then flush now m else (m, [], None).

(** *** [stop] *)
Definition stop (now : Z) (m : MongoDb) : Outcome :=
  let '(m, effects, k) := flush now m in
  ((if timer m then set_timer false m else m), effects, k).

(** ** The running plugin

    The object, the flushes suspended at an [await], and everything
    logged or requested so far.  Events are what the host delivers: a
    point from a subscription, a tick of the housekeeping interval, the
    settling of the request of a suspended flush, the plugin being
    stopped. *)
Record System : Type := {
  obj : MongoDb;
  inflight : list FlushFrame;
  trace : list Effect
}.

Inductive Event : Type :=
| ev_send (now : Z) (point : Raw)
| ev_tick (now : Z)
| ev_settle (now : Z) (i : nat) (r : superagent.Response)
| ev_stop (now : Z).

Definition opt_list {A : Type} (o : option A) : list A :=
  match o with Some a => [a] | None => [] end.

Definition after (s : System) (frames : list FlushFrame) (out : Outcome)
  : System :=
  let '(m, effects, k) := out in
  {| obj := m; inflight := frames ++ opt_list k;
     trace := trace s ++ effects |}.

Fixpoint remove_nth {A : Type} (i : nat) (l : list A) : list A :=
  match l, i with
  | [], _ => []
  | _ :: l', O => l'
  | a :: l', S i' => a :: remove_nth i' l'
  end.

Definition step (s : System) (e : Event) : System :=
  match e with
  | ev_send now point => after s (inflight s) (send now point (obj s))
  | ev_tick now =>
      if timer (obj s)
      then after s (inflight s) (housekeeping now (obj s))
      else s
  | ev_settle now i r =>
      match nth_error (inflight s) i with
      | Some fr =>
          after s (remove_nth i (inflight s)) (flush_resume now (obj s) fr r)
      | None => s
      end
  | ev_stop now => after s (inflight s) (stop now (obj s))
  end.

Definition run (s : System) (events : list Event) : System :=
  fold_left step events s.

(** The plugin's [start]: a new object, started at once. *)
Definition boot (now : Z) (opts : Options) : System :=
  {| obj := start now opts (new_MongoDb now); inflight := []; trace := [] |}.

(** ** Notions used to state the properties *)

Definition object_of (out : Outcome) : MongoDb := fst (fst out).
Definition effects_of (out : Outcome) : list Effect := snd (fst out).
Definition suspended_of (out : Outcome) : option FlushFrame := snd out.

(** the requests among the effects of a segment, in order *)
Fixpoint requests (effects : list Effect) : list Request :=
  match effects with
  | [] => []
  | http r :: effects' => r :: requests effects'
  | app_log _ :: effects' => requests effects'
  end.

(** the batches those requests carry *)
Definition batches_sent (effects : list Effect) : list (list Point) :=
  flat_map (fun r => opt_list (superagent.body r)) (requests effects).

(** the buffered points, in insertion order *)
Definition points (b : JsMap.t Point) : list Point :=
  map snd (JsMap.entries b).

(** A buffer as [send] builds it: one entry per key, each point filed
    under its own [uid]. *)
Definition well_keyed (b : JsMap.t Point) : Prop :=
  NoDup (JsMap.keys b) /\
  Forall (fun e => uid (snd e) = fst e) (JsMap.entries b).

(** is [k] the [uid] of a point of the batch *)
Definition in_batch (batch : list Point) (k : Z) : bool :=
  existsb (fun p => uid p =? k) batch.

(** the test of [housekeeping]: [timeNow > point.expiry] *)
Definition expired (now : Z) (e : Z * Point) : bool :=
  now >? expiry (snd e).

(** every live entry is still ahead of the iterator *)
Definition ahead (b : JsMap.t Point) (it : JsMap.iterator) : Prop :=
  JsMap.entries b = JsMap.entries (JsMap.remaining b it).

(** a status in [200, 300) *)
Definition ok (r : superagent.Response) : bool :=
  match r with
  | superagent.resolved status => (status >=? 200) && (status <? 300)
  | superagent.rejected => false
  end.

(** A flush on its own: each request settles, at the time and with the
    response listed, before anything else runs. *)
Fixpoint settle (rs : list (Z * superagent.Response)) (out : Outcome)
  : Outcome :=
  match rs, out with
  | (now, r) :: rs', (m, effects, Some fr) =>
      let '(m', effects', k) := flush_resume now m fr r in
      settle rs' (m', effects ++ effects', k)
  | _, _ => out
  end.

Definition flush_alone (now : Z) (m : MongoDb)
    (rs : list (Z * superagent.Response)) : Outcome :=
  settle rs (flush now m).

(** A flush amid other activity: before each request settles, whatever ran
    meanwhile (points sent, housekeeping ticks) has changed the object in
    some way, given with the time and the response. *)
Fixpoint settle_amid
    (rs : list ((MongoDb -> MongoDb) * Z * superagent.Response))
    (out : Outcome) : Outcome :=
  match rs, out with
  | (meanwhile, now, r) :: rs', (m, effects, Some fr) =>
      let '(m', effects', k) := flush_resume now (meanwhile m) fr r in
      settle_amid rs' (m', effects ++ effects', k)
  | _, _ => out
  end.

Definition flush_amid (now : Z) (m : MongoDb)
    (rs : list ((MongoDb -> MongoDb) * Z * superagent.Response)) : Outcome :=
  settle_amid rs (flush now m).

(** the request is answered with a status in [200, 300), and what ran
    meanwhile has left the options alone, as every event does *)
Definition delivered (x : (MongoDb -> MongoDb) * Z * superagent.Response)
  : Prop :=
  ok (snd x) = true /\ forall m, options (fst (fst x) m) = options m.

(** [count] consecutive runs of up to [size] elements *)
Fixpoint chunks {A : Type} (count size : nat) (l : list A) : list (list A) :=
  match count with
  | O => []
  | S count' => firstn size l :: chunks count' size (skipn size l)
  end.

(** every key is the fingerprint of the serialization of its point *)
Definition fingerprinted (b : JsMap.t Point) : Prop :=
  Forall (fun e =>
            exists json,
              stringify (payload (snd e)) (time (snd e)) (expiry (snd e))
              = Some json
              /\ fst e = hash json)
         (JsMap.entries b).

(** what ran meanwhile has left the options alone, as every event does *)
Definition undisturbed (x : (MongoDb -> MongoDb) * Z * superagent.Response)
  : Prop :=
  forall m, options (fst (fst x) m) = options m.

(** what [start] makes of [ttlSecs] and [flushSecs] *)
Definition started_ttlMillis (opts : Options) : Z :=
  match ttlSecs opts with
  | Some s => s * 1000
  | None => settings.defaultTtlMillis
  end.

Definition started_flushMillis (opts : Options) : Z :=
  match flushSecs opts with
  | Some s => if s >? 0 then s * 1000 else 0
  | None => 0
  end.

(** what no operation changes once the plugin is started *)
Definition same_settings (m m' : MongoDb) : Prop :=
  options m' = options m /\ flushMillis m' = flushMillis m
  /\ ttlMillis m' = ttlMillis m.

(** [batch] is a run of consecutive elements of [l], in their order *)
Definition is_run {A : Type} (batch l : list A) : Prop :=
  exists before after, l = before ++ batch ++ after.

(** The batches of a flush amid other activity, in the order sent, each
    with the buffered points, in insertion order, that it was taken from:
    those of the object as the segment that built the batch leaves it. *)
Fixpoint batches_taken
    (rs : list ((MongoDb -> MongoDb) * Z * superagent.Response))
    (out : Outcome) : list (list Point * list Point) :=
  map (fun batch => (batch, points (buffer (object_of out))))
      (batches_sent (effects_of out))
  ++ match rs, out with
     | (meanwhile, now, r) :: rs', (m, _, Some fr) =>
         batches_taken rs' (flush_resume now (meanwhile m) fr r)
     | _, _ => []
     end.

(** What holds of the object and of the suspended flushes in every
    state the running plugin reaches with options [opts]. *)
Definition invariant (opts : Options) (m : MongoDb)
    (frames : list FlushFrame) : Prop :=
  options m = Some opts /\
  well_keyed (buffer m) /\
  JsMap.size (buffer m) <= Z.max 0 (maxBuffer opts) /\
  (length frames <= 1)%nat /\
  (flushing m = true <-> frames <> []).

End MongoDb.
Unset Implicit Arguments.
Arguments new_MongoDb {Payload} now.
Arguments boot {Payload} now opts.
Arguments app_log {Payload} l.
Arguments ev_tick {Payload} now.
Arguments ev_settle {Payload} now i r.
Arguments ev_stop {Payload} now.

(** ** The fingerprint in the specification's words

    Two 32-bit accumulators seeded 5381 and 52711, each updated
    [acc = (acc * 33) XOR c] for each character code, here kept as unsigned
    residues; the code units are taken from the last to the first, the
    order in which [getPoint] reads them. *)
Module Fingerprint.


Definition update (c acc : Z) : Z := Z.lxor ((acc * 33) mod 2 ^ 32) c.

Definition accumulate (seed : Z) (codes : list Z) : Z :=
  fold_right update seed codes.

Definition fingerprint (codes : list Z) : Z :=
  accumulate 5381 codes * 4096 + accumulate 52711 codes.

End Fingerprint.

(** ** Worked examples: a serializer, options and a loaded plugin *)
Module Demo.
Local Open Scope string_scope.

Definition decimal (z : Z) : string := NilZero.string_of_int (Z.to_int z).

Definition codes (s : string) : list Z :=
  map (fun a => Z.of_N (N_of_ascii a)) (list_ascii_of_string s).

(** A stand-in for [JSON.stringify]: the caller's field (a path), the time
    and the expiry, separated by commas. *)
Definition stringify (path : string) (t e : Z) : option (list Z) :=
  Some (codes (path ++ "," ++ decimal t ++ "," ++ decimal e)).

Definition opts : Options :=
  {| apiUrl := "https://data.example/endpoint"; apiKey := "secret";
     apiMethod := "POST"; batchSize := 10; flushSecs := Some 60;
     maxBuffer := 1000; ttlSecs := Some 180 |}.

Definition raw (i : Z) : Raw string :=
  {| raw_payload := "environment.wind." ++ decimal i; raw_time := None |}.

(** points [from], ..., [from + count - 1], the point [i] sent at time [i] *)
Definition sends (from count : nat) : list (Event string) :=
  map (fun i => ev_send (Z.of_nat i) (raw (Z.of_nat i))) (seq from count).

(** Started at time 0; 25 points come in, the tenth starting a flush whose
    request is rejected at time 30: all 25 stay buffered, no flush runs. *)
Definition loaded : System string :=
  run stringify (boot 0 opts)
      (sends 1 25 ++ [ev_settle 30 0 superagent.rejected])%list.

(** the same options with room for two points only *)
Definition tight : Options :=
  {| apiUrl := apiUrl opts; apiKey := apiKey opts;
     apiMethod := apiMethod opts; batchSize := batchSize opts;
     flushSecs := flushSecs opts; maxBuffer := 2; ttlSecs := ttlSecs opts |}.

(** ten points in: the tenth has started a flush, still awaiting *)
Definition awaiting : System string :=
  run stringify (boot 0 opts) (sends 1 10).

(** the same options with the periodic flush switched off *)
Definition unflushed : Options :=
  {| apiUrl := apiUrl opts; apiKey := apiKey opts;
     apiMethod := apiMethod opts; batchSize := batchSize opts;
     flushSecs := Some 0; maxBuffer := maxBuffer opts;
     ttlSecs := ttlSecs opts |}.

(** the same options with batches of five *)
Definition five : Options :=
  {| apiUrl := apiUrl opts; apiKey := apiKey opts;
     apiMethod := apiMethod opts; batchSize := 5;
     flushSecs := flushSecs opts; maxBuffer := maxBuffer opts;
     ttlSecs := ttlSecs opts |}.

(** five points in, and the request of the five awaiting its response *)
Definition awaiting_five : System string :=
  run stringify (boot 0 five) (sends 1 5).

(** the flush of the loaded plugin, called at 40, after a 200 at 50 for
    its first batch: the second batch is awaiting its response *)
Definition second_batch : Outcome string :=
  flush_alone 40 (obj loaded) [(50, superagent.resolved 200)].

End Demo.

(** ** The plugin of [index.js]

    What it makes of a delta before handing it to [MongoDb.send].  A
    payload is a JavaScript object, here the list of its own properties
    with their values; the properties of these lists are read by name
    only.  A delta is taken as Signal K delivers it and the options as the
    schema of the plugin shapes them: [delta.updates] is an array of
    objects, [update.values], where it is not missing, an array whose
    elements are objects or null, [delta.context], where it is not
    missing, a string, and a list of tags, where it is not missing, an
    array of objects with a string for a name. *)
Module Plugin.

(** The values a delta, a tag or a payload carries. *)
Inductive JsVal (Value : Type) : Type :=
| undefined
| jstring (s : string)
| jtrue
| other (v : Value).
Arguments undefined {Value}.
Arguments jstring {Value} s.
Arguments jtrue {Value}.
Arguments other {Value} v.

Section Plugin.
Variable Value : Type.

(** [a.localeCompare(b)] *)
Variable localeCompare : string -> string -> Z.

Definition Obj : Type := list (string * JsVal Value).

(** [o[name]], for an own property *)
Fixpoint obj_get (name : string) (o : Obj) : option (JsVal Value) :=
  match o with
  | [] => None
  | (n, v) :: o' => if String.eqb n name then Some v else obj_get name o'
  end.

Definition obj_has (name : string) (o : Obj) : bool :=
  existsb (fun nv => String.eqb (fst nv) name) o.

(** [o[name] = v]: an own property is overwritten or added; assigning to
    [__proto__] adds none *)
Definition obj_set (name : string) (v : JsVal Value) (o : Obj) : Obj :=
  if String.eqb name "__proto__" then o
  else if obj_has name o
       then map (fun nv => if String.eqb (fst nv) name then (name, v) else nv) o
       else o ++ [(name, v)].

Record Tag : Type := { tag_name : string; tag_value : JsVal Value }.

(** an element of [update.values] *)
Record PathValue : Type := { pv_path : JsVal Value; pv_value : JsVal Value }.

Record Update : Type := {
  source : JsVal Value;                 (* [update["$source"]] *)
  timestamp : JsVal Value;
  values : option (list (option PathValue))
    (* [None]: missing; an element [None]: null or undefined *)
}.

Record Delta : Type := {
  context : option string;              (* [None]: missing *)
  updates : list Update
}.

(** the options [handleUpdates] reads *)
Record TagOptions : Type := {
  defaultTags : option (list Tag);      (* [None]: missing *)
  tagAsSelf : bool                      (* is it [true] *)
}.

(** the field of a path option that [handleUpdates] reads *)
Record PathOption : Type := {
  pathTags : option (list Tag)          (* [None]: missing *)
}.


(** [tags.forEach(tag => { payload[tag.name] = tag.value })] *)
Definition add_tags (tags : list Tag) (payload : Obj) : Obj :=
  fold_left (fun o tag => obj_set (tag_name tag) (tag_value tag) o)
            tags payload.

(** [delta.context] as a property value *)
Definition context_value (delta : Delta) : JsVal Value :=
  match context delta with
  | Some c => jstring c
  | None => undefined
  end.

(** The body of the [try] for one value: the payload handed to
    [mongodb.send], or [None] when building it throws (tags missing, or no
    context to compare). *)
Definition build (options : TagOptions) (selfContext : option string)
    (delta : Delta) (pathOption : PathOption) (update : Update)
    (val : PathValue) : option Obj :=
  let payload := [("source", source update);
                  ("context", context_value delta);
                  ("path", pv_path val);
                  ("value", pv_value val);
                  ("time", timestamp update)]%string in
  match defaultTags options with
  | None => None
  | Some dts =>
      let payload := add_tags dts payload in
      match pathTags pathOption with
      | None => None
      | Some pts =>
          let payload := add_tags pts payload in
          if tagAsSelf options then
            match context delta with
            | None => None
            | Some c =>
                let self := match selfContext with
                            | Some sc => sc
                            | None => "null"%string
                            end in
                if localeCompare c self =? 0
                then Some (obj_set "self" jtrue payload)
                else Some payload
            end
          else Some payload
      end
  end.

(** What becomes of one value. *)
Inductive Handled : Type :=
| sent (payload : Obj)     (* [mongodb.send(payload)] *)
| skipped.                 (* caught, logged *)

(** The [try] for one element of [update.values]: reading [val.path] of
    a null or undefined element throws. *)
Definition handle (options : TagOptions) (selfContext : option string)
    (delta : Delta) (pathOption : PathOption) (update : Update)
    (val : option PathValue) : Handled :=
  match val with
  | None => skipped
  | Some val =>
      match build options selfContext delta pathOption update val with
      | Some payload => sent payload
      | None => skipped
      end
  end.

(** [plugin.handleUpdates] *)
Definition handleUpdates (options : TagOptions) (selfContext : option string)
    (delta : Delta) (pathOption : PathOption) : list Handled :=
  flat_map
    (fun update =>
       match values update with
       | None => []
       | Some vals =>
           map (handle options selfContext delta pathOption update) vals
       end)
    (updates delta).

(** the value of the last tag of that name *)
Fixpoint last_tag (name : string) (tags : list Tag) : option (JsVal Value) :=
  match tags with
  | [] => None
  | tag :: tags' =>
      match last_tag name tags' with
      | Some v => Some v
      | None => if String.eqb (tag_name tag) name
                then Some (tag_value tag) else None
      end
  end.

(** the payloads handed to [mongodb.send], in order *)
Fixpoint payloads (hs : list Handled) : list Obj :=
  match hs with
  | [] => []
  | sent p :: hs' => p :: payloads hs'
  | skipped :: hs' => payloads hs'
  end.

(** the elements of [update.values] of the updates that have any, each
    with its update, in order *)
Definition all_values (delta : Delta) : list (Update * option PathValue) :=
  flat_map (fun update => match values update with
                          | Some vals => map (pair update) vals
                          | None => []
                          end)
           (updates delta).

(** those that are neither null nor undefined *)
Fixpoint present (uvs : list (Update * option PathValue))
  : list (Update * PathValue) :=
  match uvs with
  | [] => []
  | (update, Some val) :: uvs' => (update, val) :: present uvs'
  | (_, None) :: uvs' => present uvs'
  end.

End Plugin.

Arguments obj_get {Value} name o.
Arguments obj_has {Value} name o.
Arguments obj_set {Value} name v o.
Arguments tag_name {Value} t.
Arguments tag_value {Value} t.
Arguments pv_path {Value} p.
Arguments pv_value {Value} p.
Arguments source {Value} u.
Arguments timestamp {Value} u.
Arguments values {Value} u.
Arguments context {Value} d.
Arguments updates {Value} d.
Arguments defaultTags {Value} t.
Arguments tagAsSelf {Value} t.
Arguments pathTags {Value} p.
Arguments add_tags {Value} tags payload.
Arguments context_value {Value} delta.
Arguments build {Value} localeCompare options selfContext delta pathOption
  update val.
Arguments sent {Value} payload.
Arguments skipped {Value}.
Arguments handle {Value} localeCompare options selfContext delta
  pathOption update val.
Arguments handleUpdates {Value} localeCompare options selfContext delta
  pathOption.
Arguments present {Value} uvs.
Arguments last_tag {Value} name tags.
Arguments payloads {Value} hs.
Arguments all_values {Value} delta.

(** a comparison for worked examples: 0 for equal strings, 1 otherwise *)
Definition demo_compare (a b : string) : Z :=
  if String.eqb a b then 0 else 1.


Definition demo_path_option : PathOption nat :=
  {| pathTags := Some [{| tag_name := "ver"; tag_value := jstring "2" |}] |}.

Definition demo_val : PathValue nat :=
  {| pv_path := jstring "navigation.speed"; pv_value := other 7%nat |}.

Definition demo_val' : PathValue nat :=
  {| pv_path := jstring "navigation.heading"; pv_value := other 9%nat |}.

Definition demo_update : Update nat :=
  {| source := jstring "gps"; timestamp := undefined;
     values := Some [Some demo_val; None; Some demo_val'] |}.

Definition demo_delta : Delta nat :=
  {| context := Some "vessels.urn:mrn:imo:mmsi:100000001"%string;
     updates := [demo_update;
                 {| source := jstring "gps"; timestamp := undefined;
                    values := None |}] |}.

End Plugin.

(** * Properties *)

(** ** Lists *)
Section ListFacts.
Context {A : Type}.

Lemma filter_twice (f g : A -> bool) (l : list A) :
  filter f (filter g l) = filter (fun x => g x && f x) l.
Proof.
  induction l as [|a l IH]; simpl; [reflexivity|].
  destruct (g a); simpl; [destruct (f a)|]; rewrite ?IH; reflexivity.
Qed.

Lemma filter_all (f : A -> bool) (l : list A) :
  (forall x, In x l -> f x = true) -> filter f l = l.
Proof.
  induction l as [|a l IH]; simpl; intros H; [reflexivity|].
  rewrite (H a) by (left; reflexivity).
  f_equal. apply IH. intros x Hx. apply H. right. exact Hx.
Qed.

Lemma filter_none (f : A -> bool) (l : list A) :
  (forall x, In x l -> f x = false) -> filter f l = [].
Proof.
  induction l as [|a l IH]; simpl; intros H; [reflexivity|].
  rewrite (H a) by (left; reflexivity).
  apply IH. intros x Hx. apply H. right. exact Hx.
Qed.

Lemma filter_length_le (f : A -> bool) (l : list A) :
  (length (filter f l) <= length l)%nat.
Proof.
  induction l as [|a l IH]; simpl; [lia|].
  destruct (f a); simpl; lia.
Qed.

Lemma split_firstn_skipn (n : nat) (l a b : list A) :
  l = a ++ b -> a = firstn n l -> b = skipn n l.
Proof.
  intros Hl Ha.
  apply (app_inv_head a).
  rewrite <- Hl, Ha. symmetry. apply firstn_skipn.
Qed.
End ListFacts.

Lemma NoDup_fst_inj {A B : Type} (l : list (A * B)) (x y : A * B) :
  NoDup (map fst l) -> In x l -> In y l -> fst x = fst y -> x = y.
Proof.
  induction l as [|e l IH]; simpl; intros Hnd Hx Hy Hk; [contradiction|].
  inversion Hnd as [|? ? Hnotin Hnd']; subst.
  destruct Hx as [Hx|Hx], Hy as [Hy|Hy]; subst.
  - reflexivity.
  - exfalso. apply Hnotin. rewrite Hk. apply in_map. exact Hy.
  - exfalso. apply Hnotin. rewrite <- Hk. apply in_map. exact Hx.
  - apply IH; assumption.
Qed.

(** ** The [Map] *)
Module JsMapFacts.
Import JsMap.
Section JsMapFacts.
Context {V : Type}.
Implicit Types (m : t V) (k : Z) (v : V).

Lemma entries_app m1 m2 : entries (m1 ++ m2) = entries m1 ++ entries m2.
Proof.
  induction m1 as [|[e|] m1 IH]; simpl; rewrite ?IH; reflexivity.
Qed.

Lemma size_nonneg m : 0 <= size m.
Proof. unfold size. lia. Qed.

Lemma size_zero_entries m : size m = 0 -> entries m = [].
Proof.
  unfold size. destruct (entries m); simpl; [reflexivity|lia].
Qed.

Lemma entries_delete k m :
  entries (delete k m) = filter (fun e => negb (fst e =? k)) (entries m).
Proof.
  induction m as [|[[k' v']|] m IH]; simpl; [reflexivity| |exact IH].
  destruct (k' =? k); simpl; rewrite IH; reflexivity.
Qed.

Lemma skipn_delete k m (i : nat) :
  skipn i (delete k m) = delete k (skipn i m).
Proof. unfold delete. apply skipn_map. Qed.

Lemma size_delete_le k m : size (delete k m) <= size m.
Proof.
  unfold size. rewrite entries_delete.
  pose proof (filter_length_le (fun e : Z * V => negb (fst e =? k)) (entries m)).
  lia.
Qed.

Lemma has_keys k m : has k m = true <-> In k (keys m).
Proof.
  unfold has, keys.
  induction m as [|[[k' v']|] m IH]; simpl.
  - split; [discriminate|contradiction].
  - destruct (Z.eqb_spec k' k); simpl.
    + split; auto.
    + rewrite IH. split; [auto|]. intros [H|H]; [contradiction|exact H].
  - exact IH.
Qed.

Lemma has_false_keys k m : has k m = false -> ~ In k (keys m).
Proof.
  intros H Hin. apply has_keys in Hin. congruence.
Qed.

Lemma entries_set_present k v m :
  entries (map (fun s => if is_key k s then Some (k, v) else s) m)
  = map (fun e => if fst e =? k then (k, v) else e) (entries m).
Proof.
  induction m as [|[[k' v']|] m IH]; simpl; [reflexivity| |exact IH].
  destruct (k' =? k); simpl; rewrite IH; reflexivity.
Qed.

Lemma keys_set_present k v m :
  has k m = true -> keys (set k v m) = keys m.
Proof.
  intros H. unfold set, keys. rewrite H, entries_set_present, map_map.
  apply map_ext. intros [k' v']; simpl.
  destruct (Z.eqb_spec k' k); simpl; congruence.
Qed.

Lemma entries_set_absent k v m :
  has k m = false -> entries (set k v m) = entries m ++ [(k, v)].
Proof.
  intros H. unfold set. rewrite H, entries_app. reflexivity.
Qed.

Lemma size_set_present k v m :
  has k m = true -> size (set k v m) = size m.
Proof.
  intros H. unfold size.
  rewrite <- (length_map fst (entries (set k v m))).
  fold (keys (set k v m)). rewrite (keys_set_present k v m H).
  unfold keys. rewrite length_map. reflexivity.
Qed.

Lemma size_set_absent k v m :
  has k m = false -> size (set k v m) = size m + 1.
Proof.
  intros H. unfold size. rewrite (entries_set_absent k v m H), length_app.
  simpl. lia.
Qed.

Lemma size_set_le k v m : size (set k v m) <= size m + 1.
Proof.
  destruct (has k m) eqn:H.
  - rewrite size_set_present by exact H. lia.
  - rewrite size_set_absent by exact H. lia.
Qed.

Lemma get_entries k m :
  get k m = match find (fun e => fst e =? k) (entries m) with
            | Some e => Some (snd e)
            | None => None
            end.
Proof.
  induction m as [|[[k' v']|] m IH]; simpl; [reflexivity| |exact IH].
  destruct (k' =? k); [reflexivity|exact IH].
Qed.

Lemma get_delete k k' m :
  get k' (delete k m) = if k' =? k then None else get k' m.
Proof.
  induction m as [|[[k0 v0]|] m IH]; simpl.
  - destruct (k' =? k); reflexivity.
  - destruct (Z.eqb_spec k0 k) as [->|Hne]; simpl.
    + rewrite IH. destruct (Z.eqb_spec k' k) as [->|Hne'].
      * reflexivity.
      * destruct (Z.eqb_spec k k'); [congruence|reflexivity].
    + rewrite IH. destruct (Z.eqb_spec k0 k') as [->|Hne'].
      * destruct (Z.eqb_spec k' k); [congruence|reflexivity].
      * reflexivity.
  - exact IH.
Qed.

Lemma get_absent k m : has k m = false -> get k m = None.
Proof.
  unfold has.
  induction m as [|[[k0 v0]|] m IH]; simpl; [reflexivity| |exact IH].
  destruct (k0 =? k); simpl; [discriminate|exact IH].
Qed.

Lemma get_set_same k v m : get k (set k v m) = Some v.
Proof.
  unfold set. destruct (has k m) eqn:H.
  - unfold has in H.
    induction m as [|[[k0 v0]|] m IH]; simpl in *; [discriminate| |auto].
    destruct (Z.eqb_spec k0 k) as [->|Hne]; simpl in *.
    + rewrite Z.eqb_refl. reflexivity.
    + destruct (Z.eqb_spec k0 k); [congruence|]. auto.
  - pose proof (get_absent k m H) as Hg. clear H.
    induction m as [|[[k0 v0]|] m IH]; simpl in *.
    + rewrite Z.eqb_refl. reflexivity.
    + destruct (k0 =? k); [discriminate|auto].
    + auto.
Qed.

End JsMapFacts.
End JsMapFacts.

(** ** The segments of [flush] *)
Section FlushFacts.
Context {Payload : Type}.
Implicit Types (m : MongoDb Payload) (fr : FlushFrame Payload).

Lemma requests_app (e1 e2 : list (Effect Payload)) : requests (e1 ++ e2) = requests e1 ++ requests e2.
Proof.
  induction e1 as [|[l|r] e1 IH]; simpl; rewrite ?IH; reflexivity.
Qed.

(** Where [flush_loop] stops: at the [await] of one more request, with the
    object untouched, or at the end of [flush], through [finally]. *)
Lemma flush_loop_cases now m batches it m' effects k :
  flush_loop now m batches it = (m', effects, k) ->
  match k with
  | Some fr =>
      m' = m /\ JsNum.truthy batches = true /\
      fr_batches fr = JsNum.pred batches /\
      exists o, options m = Some o /\
                effects = [http (request o (fr_batch fr))] /\
                fill (buffer m) it (batchSize o)
                = (fr_batch fr, fr_iterator fr)
  | None => m' = finally now m /\ requests effects = []
  end.
Proof.
  unfold flush_loop. intros H.
  destruct (JsNum.truthy batches) eqn:Ht.
  - destruct (options m) as [o|] eqn:Ho.
    + destruct (fill (buffer m) it (batchSize o)) as [batch it'] eqn:Hf.
      inversion H; subst; simpl.
      do 3 (split; [reflexivity|]).
      exists o. split; [reflexivity|]. split; [reflexivity|exact Hf].
    + inversion H; subst. split; reflexivity.
  - inversion H; subst. split; reflexivity.
Qed.

Lemma flush_busy now m : flushing m = true -> flush now m = (m, [], None).
Proof. intros H. unfold flush. rewrite H. reflexivity. Qed.

Lemma flush_cases now m m' effects k :
  flushing m = false ->
  flush now m = (m', effects, k) ->
  match k with
  | Some fr => m' = set_flushing true m /\
               exists o, options m = Some o /\
                         effects = [http (request o (fr_batch fr))]
  | None => m' = finally now (set_flushing true m) /\ requests effects = []
  end.
Proof.
  intros Hf H. unfold flush in H. rewrite Hf in H. simpl in H.
  destruct (options m) as [o|] eqn:Ho.
  - apply flush_loop_cases in H. destruct k as [fr|].
    + destruct H as (-> & _ & _ & o' & Ho' & -> & _). simpl in Ho'.
      split; [reflexivity|]. exists o'. split; [congruence|reflexivity].
    + exact H.
  - inversion H; subst. split; reflexivity.
Qed.

(** A suspended flush resumed: the batch is deleted only on a status in
    [200, 300), and only then can a further request follow. *)
Lemma flush_resume_cases now m fr r m' effects k :
  flush_resume now m fr r = (m', effects, k) ->
  match r with
  | superagent.resolved status =>
      if (status >=? 200) && (status <? 300)
      then buffer m' = delete_batch (fr_batch fr) (buffer m) /\
           match k with
           | Some fr' =>
               m' = set_buffer (delete_batch (fr_batch fr) (buffer m)) m /\
               fr_batches fr' = JsNum.pred (fr_batches fr) /\
               JsNum.truthy (fr_batches fr) = true /\
               exists o, options m = Some o /\
                         requests effects = [request o (fr_batch fr')]
           | None =>
               m' = finally now
                      (set_buffer (delete_batch (fr_batch fr) (buffer m)) m)
               /\ requests effects = []
           end
      else m' = finally now m /\ k = None /\ requests effects = []
  | superagent.rejected =>
      m' = finally now m /\ k = None /\ requests effects = []
  end.
Proof.
  unfold flush_resume. intros H. destruct r as [status|].
  - destruct ((status >=? 200) && (status <? 300)).
    + destruct (flush_loop now _ (fr_batches fr) (fr_iterator fr))
        as [[m1 e1] k1] eqn:Hl.
      inversion H; subst. apply flush_loop_cases in Hl.
      destruct k as [fr'|].
      * destruct Hl as (-> & Ht & Hb & o & Ho & -> & _). simpl.
        repeat split; try assumption.
        exists o. split; [exact Ho|reflexivity].
      * destruct Hl as (-> & Hr). simpl. repeat split. exact Hr.
    + inversion H; subst. repeat split.
  - inversion H; subst. repeat split.
Qed.

(** What no segment of a flush touches. *)
Lemma flush_frame now m m' effects k :
  flush now m = (m', effects, k) ->
  buffer m' = buffer m /\ options m' = options m /\
  flushMillis m' = flushMillis m /\ timer m' = timer m /\
  ttlMillis m' = ttlMillis m.
Proof.
  intros H. destruct (flushing m) eqn:Hf.
  - rewrite (flush_busy now m Hf) in H. inversion H; subst. repeat split.
  - apply (flush_cases now m m' effects k Hf) in H. destruct k as [fr|].
    + destruct H as (-> & _). repeat split.
    + destruct H as (-> & _). repeat split.
Qed.

End FlushFacts.

(** ** The buffer under deletion, insertion and iteration *)
Section BufferFacts.
Context {Payload : Type}.
Implicit Types (b : JsMap.t (Point Payload)) (p : Point Payload)
               (batch : list (Point Payload)).
Import JsMapFacts.

Lemma delete_batch_cons p batch b :
  delete_batch (p :: batch) b = delete_batch batch (JsMap.delete (uid p) b).
Proof. reflexivity. Qed.

Lemma entries_delete_batch batch b :
  JsMap.entries (delete_batch batch b)
  = filter (fun e => negb (in_batch batch (fst e))) (JsMap.entries b).
Proof.
  revert b. induction batch as [|p batch IH]; intros b.
  - simpl. symmetry. apply filter_all. reflexivity.
  - rewrite delete_batch_cons, IH, entries_delete, filter_twice.
    apply filter_ext. intros [k v]; simpl.
    rewrite (Z.eqb_sym (uid p) k), negb_orb. reflexivity.
Qed.

Lemma skipn_delete_batch batch b (i : nat) :
  skipn i (delete_batch batch b) = delete_batch batch (skipn i b).
Proof.
  revert b. induction batch as [|p batch IH]; intros b; [reflexivity|].
  rewrite !delete_batch_cons, IH, skipn_delete. reflexivity.
Qed.

Lemma size_delete_batch_le batch b :
  JsMap.size (delete_batch batch b) <= JsMap.size b.
Proof.
  unfold JsMap.size. rewrite entries_delete_batch.
  pose proof (filter_length_le
                (fun e : Z * Point Payload => negb (in_batch batch (fst e)))
                (JsMap.entries b)).
  lia.
Qed.

Lemma get_delete_batch batch b (k : Z) :
  JsMap.get k (delete_batch batch b)
  = if in_batch batch k then None else JsMap.get k b.
Proof.
  revert b. induction batch as [|p batch IH]; intros b; [reflexivity|].
  rewrite delete_batch_cons, IH, get_delete. simpl.
  rewrite (Z.eqb_sym (uid p) k).
  destruct (k =? uid p); simpl; destruct (in_batch batch k); reflexivity.
Qed.

(** *** Well-keyed buffers *)

Lemma NoDup_keys_filter (f : Z * Point Payload -> bool) l :
  NoDup (map fst l) -> NoDup (map fst (filter f l)).
Proof.
  induction l as [|e l IH]; simpl; intros H; [constructor|].
  inversion H as [|? ? Hnotin Hnd]; subst.
  destruct (f e); simpl; [|auto].
  constructor; [|auto].
  intros Hin. apply Hnotin.
  apply in_map_iff in Hin. destruct Hin as (x & Hx & Hin).
  apply filter_In in Hin. rewrite <- Hx. apply in_map. tauto.
Qed.

Lemma well_keyed_empty : well_keyed (@JsMap.empty (Point Payload)).
Proof. split; constructor. Qed.

Lemma well_keyed_filter (f : Z * Point Payload -> bool) b b' :
  JsMap.entries b' = filter f (JsMap.entries b) ->
  well_keyed b -> well_keyed b'.
Proof.
  unfold well_keyed, JsMap.keys. intros -> [Hnd Hall]. split.
  - apply NoDup_keys_filter. exact Hnd.
  - apply Forall_forall. intros e He. apply filter_In in He.
    rewrite Forall_forall in Hall. apply Hall. tauto.
Qed.

Lemma well_keyed_delete (k : Z) b : well_keyed b -> well_keyed (JsMap.delete k b).
Proof. intros H. eapply well_keyed_filter; [apply entries_delete|exact H]. Qed.

Lemma well_keyed_delete_batch batch b :
  well_keyed b -> well_keyed (delete_batch batch b).
Proof.
  intros H. eapply well_keyed_filter; [apply entries_delete_batch|exact H].
Qed.

Lemma well_keyed_set p b :
  well_keyed b -> well_keyed (JsMap.set (uid p) p b).
Proof.
  intros [Hnd Hall]. destruct (JsMap.has (uid p) b) eqn:Hhas.
  - split.
    + rewrite keys_set_present by exact Hhas. exact Hnd.
    + unfold JsMap.set. rewrite Hhas, entries_set_present.
      apply Forall_forall. intros e He.
      apply in_map_iff in He. destruct He as (e0 & <- & He0).
      destruct (fst e0 =? uid p); [reflexivity|].
      rewrite Forall_forall in Hall. auto.
    - split.
    + unfold JsMap.keys. rewrite entries_set_absent by exact Hhas.
      rewrite map_app. simpl.
      apply NoDup_app; [exact Hnd|constructor; [intros []|constructor]|].
      intros k Hk [<-|[]]. apply (has_false_keys _ _ Hhas). exact Hk.
    + rewrite entries_set_absent by exact Hhas.
      apply Forall_app. split; [exact Hall|].
      constructor; [reflexivity|constructor].
Qed.

(** *** [housekeeping]'s loop *)

Lemma entries_evict_gen now (todo : list (JsMap.slot (Point Payload))) b :
  JsMap.entries (evict now todo b)
  = filter (fun e => negb (existsb (fun e' => (fst e' =? fst e) && expired now e')
                                   (JsMap.entries todo)))
           (JsMap.entries b).
Proof.
  revert b. induction todo as [|[[k p]|] todo IH]; intros b; simpl.
  - symmetry. apply filter_all. reflexivity.
  - rewrite IH. unfold expired at 2. simpl.
    destruct (now >? expiry p).
    + rewrite entries_delete, filter_twice. apply filter_ext.
      intros [k' v']; simpl. rewrite andb_true_r, negb_orb.
      rewrite (Z.eqb_sym k k'). reflexivity.
    + apply filter_ext. intros [k' v']; simpl.
      rewrite andb_false_r. reflexivity.
  - apply IH.
Qed.

Lemma entries_evict now b :
  NoDup (JsMap.keys b) ->
  JsMap.entries (evict now b b)
  = filter (fun e => negb (expired now e)) (JsMap.entries b).
Proof.
  intros Hnd. rewrite entries_evict_gen. apply filter_ext_in.
  intros e He. f_equal.
  destruct (expired now e) eqn:Hx.
  - apply existsb_exists. exists e. rewrite Z.eqb_refl, Hx. auto.
  - apply not_true_is_false. intros Hex.
    apply existsb_exists in Hex. destruct Hex as (e' & He' & Hc).
    apply andb_true_iff in Hc. destruct Hc as [Hk Hx'].
    apply Z.eqb_eq in Hk.
    rewrite (NoDup_fst_inj _ e' e Hnd He' He Hk) in Hx'. congruence.
Qed.

Lemma well_keyed_evict now b : well_keyed b -> well_keyed (evict now b b).
Proof.
  intros H. eapply well_keyed_filter; [apply entries_evict_gen|exact H].
Qed.

Lemma size_evict_le now b : JsMap.size (evict now b b) <= JsMap.size b.
Proof.
  unfold JsMap.size. rewrite entries_evict_gen.
  pose proof (filter_length_le
    (fun e => negb (existsb (fun e' : Z * Point Payload =>
                               (fst e' =? fst e) && expired now e')
                            (JsMap.entries b)))
    (JsMap.entries b)).
  lia.
Qed.

End BufferFacts.

(** ** Every reachable state *)
Section Reachable.
Context {Payload : Type}.
Variable stringify : Payload -> Z -> Z -> option (list Z).
Variable opts : Options.
Implicit Types (m : MongoDb Payload) (s : System Payload).

Ltac invariant_parts :=
  unfold invariant; simpl; split; [|split; [|split; [|split]]].

Lemma invariant_idle m :
  options m = Some opts -> well_keyed (buffer m) ->
  JsMap.size (buffer m) <= Z.max 0 (maxBuffer opts) -> flushing m = false ->
  invariant opts m [].
Proof.
  intros Ho Hk Hs Hf. invariant_parts; try assumption; [simpl; lia|].
  rewrite Hf. split; [discriminate|]. intros Hc. exfalso. apply Hc.
  reflexivity.
Qed.

Lemma invariant_busy m fr :
  options m = Some opts -> well_keyed (buffer m) ->
  JsMap.size (buffer m) <= Z.max 0 (maxBuffer opts) -> flushing m = true ->
  invariant opts m [fr].
Proof.
  intros Ho Hk Hs Hf. invariant_parts; try assumption; [simpl; lia|].
  rewrite Hf. split; [discriminate|reflexivity].
Qed.

Lemma invariant_buffer m frames b :
  invariant opts m frames ->
  well_keyed b -> JsMap.size b <= Z.max 0 (maxBuffer opts) ->
  invariant opts (set_buffer b m) frames.
Proof.
  intros (Ho & _ & _ & Hlen & Hflag) Hk Hs.
  invariant_parts; assumption.
Qed.

Lemma invariant_finally now m :
  invariant opts m [] \/ (exists fr, invariant opts m [fr]) ->
  invariant opts (finally now m) [].
Proof.
  intros H.
  assert (options m = Some opts /\ well_keyed (buffer m) /\
          JsMap.size (buffer m) <= Z.max 0 (maxBuffer opts)) as (Ho & Hk & Hs).
  { destruct H as [H|[fr H]]; destruct H as (? & ? & ? & _); auto. }
  apply invariant_idle; assumption || reflexivity.
Qed.

Lemma invariant_flush now m frames m' effects k :
  flush now m = (m', effects, k) ->
  invariant opts m frames ->
  invariant opts m' (frames ++ opt_list k).
Proof.
  intros H Hinv. destruct (flushing m) eqn:Hf.
  - rewrite (flush_busy now m Hf) in H. inversion H; subst.
    simpl. rewrite app_nil_r. exact Hinv.
  - assert (frames = []) as ->.
    { destruct Hinv as (_ & _ & _ & _ & Hflag).
      destruct frames as [|fr frames]; [reflexivity|].
      assert (flushing m = true) by (apply Hflag; discriminate).
      congruence. }
    apply (flush_cases now m m' effects k Hf) in H.
    destruct Hinv as (Ho & Hk & Hs & _ & _).
    destruct k as [fr|].
    + destruct H as (-> & _). simpl.
      apply invariant_busy; assumption || reflexivity.
    + destruct H as (-> & _). simpl.
      apply invariant_idle; assumption || reflexivity.
Qed.

Lemma invariant_send now point m frames m' effects k :
  send stringify now point m = (m', effects, k) ->
  invariant opts m frames ->
  invariant opts m' (frames ++ opt_list k).
Proof.
  intros H Hinv. unfold send in H.
  pose proof Hinv as (Ho & Hk & Hs & _).
  rewrite Ho in H.
  destruct (JsMap.size (buffer m) >=? maxBuffer opts) eqn:Hfull.
  - inversion H; subst. simpl. rewrite app_nil_r. exact Hinv.
  - destruct (getPoint stringify now m point) as [p|].
    + assert (invariant opts
                (set_buffer (JsMap.set (uid p) p (buffer m)) m) frames)
        as Hinv1.
      { apply invariant_buffer; [exact Hinv| |].
        - apply well_keyed_set. exact Hk.
        - pose proof (JsMapFacts.size_set_le (uid p) p (buffer m)). lia. }
      match type of H with
      | (if ?c then _ else _) = _ => destruct c
      end.
      * eapply invariant_flush; eassumption.
      * inversion H; subst. simpl. rewrite app_nil_r. exact Hinv1.
    + inversion H; subst. simpl. rewrite app_nil_r. exact Hinv.
Qed.

Lemma invariant_housekeeping now m frames m' effects k :
  housekeeping now m = (m', effects, k) ->
  invariant opts m frames ->
  invariant opts m' (frames ++ opt_list k).
Proof.
  intros H Hinv. unfold housekeeping in H.
  pose proof Hinv as (Ho & Hk & Hs & _).
  assert (invariant opts
            (set_buffer (evict now (buffer m) (buffer m)) m) frames)
    as Hinv1.
  { apply invariant_buffer; [exact Hinv| |].
    - apply well_keyed_evict. exact Hk.
    - pose proof (size_evict_le now (buffer m)). lia. }
  match type of H with
  | (if ?c then _ else _) = _ => destruct c
  end.
  - eapply invariant_flush; eassumption.
  - inversion H; subst. simpl. rewrite app_nil_r. exact Hinv1.
Qed.

Lemma invariant_stop now m frames m' effects k :
  stop now m = (m', effects, k) ->
  invariant opts m frames ->
  invariant opts m' (frames ++ opt_list k).
Proof.
  intros H Hinv. unfold stop in H.
  destruct (flush now m) as [[m1 e1] k1] eqn:Hfl.
  pose proof (invariant_flush now m frames m1 e1 k1 Hfl Hinv) as Hinv1.
  inversion H; subst.
  destruct (timer m1); exact Hinv1.
Qed.

Lemma invariant_resume now m fr r m' effects k :
  flush_resume now m fr r = (m', effects, k) ->
  invariant opts m [fr] ->
  invariant opts m' (opt_list k).
Proof.
  intros H Hinv.
  pose proof Hinv as (Ho & Hk & Hs & _ & Hflag).
  assert (invariant opts (finally now m) []) as Hfin.
  { apply invariant_finally. right. exists fr. exact Hinv. }
  apply flush_resume_cases in H.
  destruct r as [status|].
  - destruct ((status >=? 200) && (status <? 300)).
    + destruct H as (_ & H).
      assert (invariant opts
                (set_buffer (delete_batch (fr_batch fr) (buffer m)) m) [fr])
        as Hinv1.
      { apply invariant_buffer; [exact Hinv| |].
        - apply well_keyed_delete_batch. exact Hk.
        - pose proof (size_delete_batch_le (fr_batch fr) (buffer m)). lia. }
      destruct k as [fr'|].
      * destruct H as (-> & _). simpl.
        destruct Hinv1 as (? & ? & ? & ? & Hflag1).
        apply invariant_busy; try assumption.
        apply Hflag1. discriminate.
      * destruct H as (-> & _). simpl.
        apply invariant_finally. right. exists fr. exact Hinv1.
    + destruct H as (-> & -> & _). exact Hfin.
  - destruct H as (-> & -> & _). exact Hfin.
Qed.

Lemma invariant_boot now :
  invariant opts (obj (boot (Payload := Payload) now opts)) [].
Proof.
  unfold boot, start. simpl.
  assert (forall m, options m = Some opts -> buffer m = JsMap.empty ->
                    flushing m = false -> invariant opts m []) as Hbase.
  { intros m Ho Hb Hf. apply invariant_idle; try assumption.
    - rewrite Hb. apply well_keyed_empty.
    - rewrite Hb. change (0 <= Z.max 0 (maxBuffer opts)). lia. }
  apply Hbase; destruct (ttlSecs opts), (flushSecs opts) as [f|];
    try destruct (f >? 0); reflexivity.
Qed.

Lemma invariant_step s e :
  invariant opts (obj s) (inflight s) ->
  invariant opts (obj (step stringify s e)) (inflight (step stringify s e)).
Proof.
  intros Hinv. destruct e as [now point|now|now i r|now]; simpl.
  - destruct (send stringify now point (obj s)) as [[m' eff] k] eqn:H.
    simpl. eapply invariant_send; eassumption.
  - destruct (timer (obj s)); [|exact Hinv].
    destruct (housekeeping now (obj s)) as [[m' eff] k] eqn:H.
    simpl. eapply invariant_housekeeping; eassumption.
  - destruct (nth_error (inflight s) i) as [fr|] eqn:Hn; [|exact Hinv].
    destruct (flush_resume now (obj s) fr r) as [[m' eff] k] eqn:H.
    simpl.
    assert (inflight s = [fr] /\ i = O) as [Hfr ->].
    { destruct Hinv as (_ & _ & _ & Hlen & _).
      destruct (inflight s) as [|fr0 [|fr1 rest]]; simpl in *; try lia.
      - destruct i; discriminate.
      - destruct i as [|i]; simpl in Hn.
        + split; congruence.
        + destruct i; discriminate. }
    rewrite Hfr in *. simpl.
    eapply invariant_resume; eassumption.
  - destruct (stop now (obj s)) as [[m' eff] k] eqn:H.
    simpl. eapply invariant_stop; eassumption.
Qed.

Lemma invariant_run events s :
  invariant opts (obj s) (inflight s) ->
  invariant opts (obj (run stringify s events))
                 (inflight (run stringify s events)).
Proof.
  revert s. induction events as [|e events IH]; intros s H; simpl.
  - exact H.
  - apply IH. apply invariant_step. exact H.
Qed.

End Reachable.

(** ** The claims *)

(** C1.  Whatever the plugin is sent and whenever its requests settle, the
    buffer never holds more than [maxBuffer] points; a [send] that finds
    [buffer.size >= maxBuffer] logs the buffer-exceeded error, adds nothing
    and leaves the object, the buffer included, as it was. *)
Theorem send_respects_maxBuffer :
  forall (Payload : Type) (stringify : Payload -> Z -> Z -> option (list Z))
         (opts : Options) (now : Z) (events : list (Event Payload)),
    0 <= maxBuffer opts ->
    JsMap.size (buffer (obj (run stringify (boot now opts) events)))
      <= maxBuffer opts
    /\ forall (now' : Z) (point : Raw Payload) (m : MongoDb Payload) (o : Options),
         options m = Some o ->
         maxBuffer o <= JsMap.size (buffer m) ->
         send stringify now' point m
         = (m, [app_log (error_send_buffer_exceeded (JsMap.size (buffer m)))],
            None).
Proof.
  intros Payload stringify opts now events Hmax. split.
  - pose proof (invariant_run stringify opts events (boot now opts)
                  (invariant_boot opts now)) as (_ & _ & Hs & _).
    lia.
  - intros now' point m o Ho Hfull. unfold send. rewrite Ho.
    destruct (Z.geb_spec (JsMap.size (buffer m)) (maxBuffer o)); [reflexivity|lia].
Qed.

Lemma send_respects_maxBuffer_witness :
  let s := run Demo.stringify (boot 0 Demo.tight) (Demo.sends 1 3) in
  0 <= maxBuffer Demo.tight
  /\ JsMap.size (buffer (obj s)) <= 2
  /\ send Demo.stringify 4 (Demo.raw 4) (obj s)
     = (obj s, [app_log (error_send_buffer_exceeded 2)], None).
Proof.
  intros s.
  assert (0 <= maxBuffer Demo.tight) as Hmax by (vm_compute; discriminate).
  destruct (send_respects_maxBuffer string Demo.stringify Demo.tight 0
              (Demo.sends 1 3) Hmax) as [Hsize Hreject].
  split; [exact Hmax|]. split; [exact Hsize|].
  apply (Hreject 4 (Demo.raw 4) (obj s) Demo.tight).
  - reflexivity.
  - vm_compute. discriminate.
Defined.

(** C2.  A [flush] called while [flushing] is set returns at once: no
    request, nothing logged, the object unchanged.  A [flush] that reaches
    its [await] has set the flag before suspending, so a second call made
    then, at any time, is such a no-op; and in every state the running
    plugin reaches at most one flush is suspended, the flag being set
    exactly then. *)
Theorem flush_is_exclusive :
  forall (Payload : Type) (stringify : Payload -> Z -> Z -> option (list Z))
         (m : MongoDb Payload) (now : Z),
    (flushing m = true -> flush now m = (m, [], None))
    /\ (forall m' effects fr,
          flush now m = (m', effects, Some fr) ->
          flushing m' = true /\ forall now', flush now' m' = (m', [], None))
    /\ (forall opts now0 events,
          let s := run stringify (boot now0 opts) events in
          (length (inflight s) <= 1)%nat
          /\ (flushing (obj s) = true <-> inflight s <> [])).
Proof.
  intros Payload stringify m now. split; [|split].
  - apply flush_busy.
  - intros m' effects fr H.
    assert (flushing m' = true) as Hf'.
    { destruct (flushing m) eqn:Hf.
      - rewrite (flush_busy now m Hf) in H. discriminate.
      - apply (flush_cases now m m' effects (Some fr) Hf) in H.
        destruct H as (-> & _). reflexivity. }
    split; [exact Hf'|]. intros now'. apply flush_busy. exact Hf'.
  - intros opts now0 events s.
    pose proof (invariant_run stringify opts events (boot now0 opts)
                  (invariant_boot opts now0)) as (_ & _ & _ & Hone & Hflag).
    split; assumption.
Qed.

Lemma flush_is_exclusive_witness :
  flushing (obj Demo.awaiting) = true
  /\ length (inflight Demo.awaiting) = 1%nat
  /\ flush 11 (obj Demo.awaiting) = (obj Demo.awaiting, [], None).
Proof.
  assert (flushing (obj Demo.awaiting) = true) as Hf by reflexivity.
  split; [exact Hf|]. split; [reflexivity|].
  exact (proj1 (flush_is_exclusive string Demo.stringify (obj Demo.awaiting) 11)
               Hf).
Defined.

(** C3.  When the awaited request of a batch is rejected, or resolves with
    a status outside [200, 300), the flush ends there: no further request,
    the buffer exactly as it was at that moment (the batch still in it,
    earlier delivered batches still out of it), [flushExpiry] set to
    [now + flushMillis] and [flushing] reset.  The same resetting closes
    every segment that ends a flush, whatever the outcome. *)
Theorem failed_batch_ends_flush :
  forall (Payload : Type) (m : MongoDb Payload) (fr : FlushFrame Payload)
         (now : Z),
    (forall r,
        ok r = false ->
        let out := flush_resume now m fr r in
        suspended_of out = None
        /\ requests (effects_of out) = []
        /\ buffer (object_of out) = buffer m
        /\ flushExpiry (object_of out) = now + flushMillis m
        /\ flushing (object_of out) = false)
    /\ (forall r,
          suspended_of (flush_resume now m fr r) = None ->
          flushExpiry (object_of (flush_resume now m fr r)) = now + flushMillis m
          /\ flushing (object_of (flush_resume now m fr r)) = false)
    /\ (flushing m = false ->
        suspended_of (flush now m) = None ->
        flushExpiry (object_of (flush now m)) = now + flushMillis m
        /\ flushing (object_of (flush now m)) = false).
Proof.
  intros Payload m fr now. split; [|split].
  - intros r Hr out. subst out.
    destruct (flush_resume now m fr r) as [[m' effects] k] eqn:H.
    apply flush_resume_cases in H. unfold ok in Hr.
    destruct r as [status|].
    + rewrite Hr in H. destruct H as (-> & -> & He).
      repeat split. exact He.
    + destruct H as (-> & -> & He). repeat split. exact He.
  - intros r Hk.
    destruct (flush_resume now m fr r) as [[m' effects] k] eqn:H.
    simpl in Hk. subst k. apply flush_resume_cases in H.
    destruct r as [status|].
    + destruct ((status >=? 200) && (status <? 300)).
      * destruct H as (_ & -> & _). split; reflexivity.
      * destruct H as (-> & _). split; reflexivity.
    + destruct H as (-> & _). split; reflexivity.
  - intros Hf Hk.
    destruct (flush now m) as [[m' effects] k] eqn:H.
    simpl in Hk. subst k.
    apply (flush_cases now m m' effects None Hf) in H.
    destruct H as (-> & _). split; reflexivity.
Qed.

Lemma failed_batch_ends_flush_witness :
  match Demo.second_batch with
  | (m, _, Some fr) =>
      JsMap.size (buffer m) = 15
      /\ ok (superagent.resolved 500) = false
      /\ let out := flush_resume 60 m fr (superagent.resolved 500) in
         suspended_of out = None
         /\ requests (effects_of out) = []
         /\ buffer (object_of out) = buffer m
         /\ flushExpiry (object_of out) = 60 + 60000
         /\ flushing (object_of out) = false
  | _ => False
  end.
Proof.
  destruct Demo.second_batch as [[m effects] [fr|]] eqn:H;
    [|vm_compute in H; discriminate].
  split; [vm_compute in H; inversion H; reflexivity|].
  split; [reflexivity|].
  assert (flushMillis m = 60000) as Hm
    by (vm_compute in H; inversion H; reflexivity).
  rewrite <- Hm.
  exact (proj1 (failed_batch_ends_flush string m fr 60)
               (superagent.resolved 500) eq_refl).
Defined.

(** C4.  When the awaited request of a batch resolves with a status in
    [200, 300), the buffer loses exactly the entries filed under the [uid]
    of a point of that batch: each of those keys is absent afterwards, and
    every other key holds what it held. *)
Theorem delivered_batch_is_removed :
  forall (Payload : Type) (m : MongoDb Payload) (fr : FlushFrame Payload)
         (now status : Z),
    200 <= status < 300 ->
    let m' := object_of (flush_resume now m fr (superagent.resolved status)) in
    Forall (fun p => JsMap.get (uid p) (buffer m') = None) (fr_batch fr)
    /\ (forall key,
          in_batch (fr_batch fr) key = false ->
          JsMap.get key (buffer m') = JsMap.get key (buffer m))
    /\ JsMap.entries (buffer m')
       = filter (fun e => negb (in_batch (fr_batch fr) (fst e)))
                (JsMap.entries (buffer m)).
Proof.
  intros Payload m fr now status Hs m'. subst m'.
  destruct (flush_resume now m fr (superagent.resolved status))
    as [[m' effects] k] eqn:H.
  apply flush_resume_cases in H.
  replace ((status >=? 200) && (status <? 300)) with true in H
    by (symmetry; apply andb_true_iff; split; lia).
  destruct H as (Hb & _). unfold object_of. simpl. rewrite Hb.
  split; [|split].
  - apply Forall_forall. intros p Hp. rewrite get_delete_batch.
    replace (in_batch (fr_batch fr) (uid p)) with true; [reflexivity|].
    symmetry. apply existsb_exists. exists p. split; [exact Hp|].
    apply Z.eqb_refl.
  - intros key Hkey. rewrite get_delete_batch, Hkey. reflexivity.
  - apply entries_delete_batch.
Qed.

Lemma delivered_batch_is_removed_witness :
  match inflight Demo.awaiting_five with
  | [fr] =>
      let m := obj Demo.awaiting_five in
      let m' := object_of (flush_resume 9 m fr (superagent.resolved 200)) in
      length (fr_batch fr) = 5%nat
      /\ 200 <= 200 < 300
      /\ Forall (fun p => JsMap.get (uid p) (buffer m') = None) (fr_batch fr)
  | _ => False
  end.
Proof.
  destruct (inflight Demo.awaiting_five) as [|fr [|]] eqn:H;
    try (vm_compute in H; discriminate).
  intros m m'.
  split; [vm_compute in H; inversion H; reflexivity|].
  assert (200 <= 200 < 300) as Hs by lia.
  split; [exact Hs|].
  exact (proj1 (delivered_batch_is_removed string m fr 9 200 Hs)).
Defined.

(** ** A flush on its own *)
Section FlushAlone.
Context {Payload : Type}.
Implicit Types (m : MongoDb Payload) (b : JsMap.t (Point Payload))
               (batch : list (Point Payload)) (it : JsMap.iterator).
Import JsMapFacts.

Lemma batches_sent_app (e1 e2 : list (Effect Payload)) :
  batches_sent (e1 ++ e2) = batches_sent e1 ++ batches_sent e2.
Proof. unfold batches_sent. rewrite requests_app. apply flat_map_app. Qed.

Lemma length_chunks {A : Type} (count size : nat) (l : list A) :
  length (chunks count size l) = count.
Proof.
  revert l. induction count as [|count IH]; intros l; simpl;
    [reflexivity|]. rewrite IH. reflexivity.
Qed.

Lemma chunks_bounded {A : Type} (count size : nat) (l : list A) :
  Forall (fun c => (length c <= size)%nat) (chunks count size l).
Proof.
  revert l. induction count as [|count IH]; intros l; simpl; constructor.
  - rewrite length_firstn. lia.
  - apply IH.
Qed.

(** The inner loop takes the next live entries, as many as [c] asks
    for, and leaves the iterator just behind the last one taken. *)
Lemma fill_from_split (rest : list (JsMap.slot (Point Payload))) :
  forall (i : nat) (c : Z) batch it,
    0 <= c ->
    fill_from rest i c = (batch, it) ->
    exists used rest2,
      rest = used ++ rest2 /\
      batch = map snd (JsMap.entries used) /\
      JsMap.entries used = firstn (Z.to_nat c) (JsMap.entries rest) /\
      (it = JsMap.Iter (i + length used) \/ (it = JsMap.Done /\ rest2 = [])).
Proof.
  induction rest as [|s rest IH]; intros i c batch it Hc H.
  - exists [], []. simpl in H.
    destruct (c =? 0); inversion H; subst; simpl;
      rewrite ?firstn_nil; repeat split; auto.
  - simpl in H. destruct (Z.eqb_spec c 0) as [->|Hne].
    + inversion H; subst. exists [], (s :: rest). simpl.
      repeat split. left. f_equal. lia.
    + destruct s as [[k p]|].
      * destruct (fill_from rest (S i) (c - 1)) as [batch' it'] eqn:Hf.
        inversion H; subst.
        destruct (IH (S i) (c - 1) batch' it ltac:(lia) Hf)
          as (used & rest2 & -> & -> & He & Hit).
        exists (Some (k, p) :: used), rest2. simpl.
        split; [reflexivity|]. split; [reflexivity|]. split.
        -- replace (Z.to_nat c) with (S (Z.to_nat (c - 1))) by lia.
           simpl. rewrite He. reflexivity.
        -- destruct Hit as [->|Hd]; [left|right; exact Hd].
           f_equal. lia.
      * destruct (IH (S i) c batch it Hc H)
          as (used & rest2 & -> & -> & He & Hit).
        exists (None :: used), rest2. simpl.
        split; [reflexivity|]. split; [reflexivity|]. split; [exact He|].
        destruct Hit as [->|Hd]; [left|right; exact Hd].
        f_equal. lia.
Qed.

Lemma fill_split b it (c : Z) batch it' :
  0 <= c ->
  fill b it c = (batch, it') ->
  exists used,
    JsMap.remaining b it = used ++ JsMap.remaining b it' /\
    batch = map snd (JsMap.entries used) /\
    JsMap.entries used
    = firstn (Z.to_nat c) (JsMap.entries (JsMap.remaining b it)).
Proof.
  intros Hc H. destruct it as [i|]; simpl in *.
  - destruct (fill_from_split (skipn i b) i c batch it' Hc H)
      as (used & rest2 & Hrest & -> & He & Hit).
    exists used. split; [|split; [reflexivity|exact He]].
    rewrite Hrest. f_equal.
    destruct Hit as [->|[-> ->]]; [|reflexivity]. simpl.
    rewrite Nat.add_comm, <- skipn_skipn, Hrest.
    rewrite skipn_app, skipn_all, Nat.sub_diag. reflexivity.
  - inversion H; subst. exists []. simpl. repeat split.
    symmetry. apply firstn_nil.
Qed.

(** [fill] is the loop of the source: stop when [c] is used up, else ask
    the iterator for its next entry, stop if there is none, else push the
    point and go on with [c - 1]. *)
Lemma fill_from_next b (c : Z) (rest : list (JsMap.slot (Point Payload))) :
  forall i : nat,
    skipn i b = rest ->
    fill_from rest i c
    = if c =? 0 then ([], JsMap.Iter i)
      else match JsMap.scan rest i with
           | (Some e, it') =>
               let '(batch, it'') := fill b it' (c - 1) in
               (snd e :: batch, it'')
           | (None, it') => ([], it')
           end.
Proof.
  induction rest as [|[[k p]|] rest IH]; intros i Hi;
    cbn [fill_from JsMap.scan fill snd].
  - destruct (c =? 0); reflexivity.
  - destruct (c =? 0); [reflexivity|].
    replace (skipn (S i) b) with rest; [reflexivity|].
    change (S i) with (1 + i)%nat. rewrite <- skipn_skipn, Hi. reflexivity.
  - rewrite (IH (S i)).
    + destruct (c =? 0); reflexivity.
    + change (S i) with (1 + i)%nat. rewrite <- skipn_skipn, Hi. reflexivity.
Qed.

Lemma fill_next b it (c : Z) :
  fill b it c
  = if c =? 0 then ([], it)
    else match JsMap.next b it with
         | (Some e, it') =>
             let '(batch, it'') := fill b it' (c - 1) in
             (snd e :: batch, it'')
         | (None, it') => ([], it')
         end.
Proof.
  destruct it as [i|]; simpl.
  - apply fill_from_next. reflexivity.
  - destruct (c =? 0); reflexivity.
Qed.

Lemma fill_bounded b it (c : Z) :
  0 <= c -> Z.of_nat (length (fst (fill b it c))) <= c.
Proof.
  intros Hc. destruct (fill b it c) as [batch it'] eqn:H.
  destruct (fill_split b it c batch it' Hc H) as (used & _ & -> & He).
  simpl. rewrite length_map, He, length_firstn. lia.
Qed.

Lemma delete_batch_nil batch :
  delete_batch batch (@nil (JsMap.slot (Point Payload))) = [].
Proof. induction batch as [|p batch IH]; simpl; auto. Qed.

Lemma remaining_delete_batch batch b it :
  JsMap.remaining (delete_batch batch b) it
  = delete_batch batch (JsMap.remaining b it).
Proof.
  destruct it as [i|]; simpl.
  - apply skipn_delete_batch.
  - symmetry. apply delete_batch_nil.
Qed.

Lemma NoDup_app_disjoint {A : Type} (l1 l2 : list A) (x : A) :
  NoDup (l1 ++ l2) -> In x l1 -> In x l2 -> False.
Proof.
  induction l1 as [|a l1 IH]; simpl; intros Hnd H1 H2; [contradiction|].
  inversion Hnd as [|? ? Hnotin Hnd']; subst.
  destruct H1 as [->|H1].
  - apply Hnotin. apply in_or_app. right. exact H2.
  - apply IH; assumption.
Qed.

(** One batch taken and, once delivered, deleted. *)
Lemma batch_taken b it (c : Z) batch it' :
  well_keyed b -> ahead b it -> 0 <= c ->
  fill b it c = (batch, it') ->
  batch = firstn (Z.to_nat c) (points b)
  /\ points (delete_batch batch b) = skipn (Z.to_nat c) (points b)
  /\ ahead (delete_batch batch b) it'
  /\ well_keyed (delete_batch batch b).
Proof.
  intros [Hnd Hall] Hahead Hc H.
  destruct (fill_split b it c batch it' Hc H) as (used & Hrem & Hbatch & He).
  unfold ahead in *. rewrite <- Hahead in He.
  assert (JsMap.entries b
          = JsMap.entries used ++ JsMap.entries (JsMap.remaining b it'))
    as Hsplit by (rewrite Hahead, Hrem; apply entries_app).
  pose proof (split_firstn_skipn (Z.to_nat c) _ _ _ Hsplit He) as Hrest.
  rewrite Forall_forall in Hall.
  assert (forall e, In e (JsMap.entries used) ->
                    negb (in_batch batch (fst e)) = false) as Hin.
  { intros e Hin. apply negb_false_iff, existsb_exists.
    exists (snd e). split.
    - rewrite Hbatch. apply in_map. exact Hin.
    - apply Z.eqb_eq, Hall. rewrite Hsplit. apply in_or_app. auto. }
  assert (forall e, In e (JsMap.entries (JsMap.remaining b it')) ->
                    negb (in_batch batch (fst e)) = true) as Hout.
  { intros e Hout. apply negb_true_iff, not_true_is_false. intros Hex.
    apply existsb_exists in Hex. destruct Hex as (p & Hp & Hk).
    apply Z.eqb_eq in Hk. rewrite Hbatch in Hp.
    apply in_map_iff in Hp. destruct Hp as (e' & <- & He').
    rewrite (Hall e') in Hk
      by (rewrite Hsplit; apply in_or_app; auto).
    unfold JsMap.keys in Hnd. rewrite Hsplit, map_app in Hnd.
    apply (NoDup_app_disjoint _ _ (fst e) Hnd).
    - rewrite <- Hk. apply in_map. exact He'.
    - apply in_map. exact Hout. }
  assert (JsMap.entries (delete_batch batch b)
          = JsMap.entries (JsMap.remaining b it')) as Hb'.
  { rewrite entries_delete_batch, Hsplit, filter_app.
    rewrite (filter_none _ _ Hin), (filter_all _ _ Hout). reflexivity. }
  split; [|split; [|split]].
  - unfold points. rewrite Hbatch, He. symmetry. apply firstn_map.
  - unfold points. rewrite Hb', Hrest. symmetry. apply skipn_map.
  - rewrite Hb', remaining_delete_batch, entries_delete_batch.
    symmetry. apply filter_all. exact Hout.
  - apply well_keyed_delete_batch. split; [exact Hnd|].
    apply Forall_forall. exact Hall.
Qed.

End FlushAlone.

Section FlushRun.
Context {Payload : Type}.
Implicit Types (m : MongoDb Payload) (it : JsMap.iterator).

Lemma settle_done rs m (effects : list (Effect Payload)) :
  settle rs (m, effects, None) = (m, effects, None).
Proof. destruct rs as [|[t r] rs]; reflexivity. Qed.

Lemma settle_cons t r rs m (effects : list (Effect Payload)) fr :
  settle ((t, r) :: rs) (m, effects, Some fr)
  = let '(m', effects', k) := flush_resume t m fr r in
    settle rs (m', effects ++ effects', k).
Proof. reflexivity. Qed.

Lemma flush_resume_ok now m fr status :
  (status >=? 200) && (status <? 300) = true ->
  flush_resume now m fr (superagent.resolved status)
  = let '(m', effects, k) :=
      flush_loop now (set_buffer (delete_batch (fr_batch fr) (buffer m)) m)
                 (fr_batches fr) (fr_iterator fr) in
    (m', app_log (debug_sent (fr_batches fr) (length (fr_batch fr))
                             (JsMap.size (buffer m)) status) :: effects, k).
Proof. intros H. unfold flush_resume. rewrite H. reflexivity. Qed.

(** [q] batches planned, every request answered in [200, 300): [q]
    requests go out, carrying the buffered points run by run. *)
Lemma flush_loop_alone (o : Options) :
  0 < batchSize o ->
  forall (q : nat) rs now m it eff0 m1 eff1 k1,
    options m = Some o ->
    well_keyed (buffer m) -> ahead (buffer m) it ->
    (q <= length rs)%nat ->
    Forall (fun tr => ok (snd tr) = true) rs ->
    flush_loop now m (JsNum.Fin (Z.of_nat q)) it = (m1, eff1, k1) ->
    let out := settle rs (m1, eff0 ++ eff1, k1) in
    suspended_of out = None
    /\ batches_sent (effects_of out)
       = batches_sent eff0
         ++ chunks q (Z.to_nat (batchSize o)) (points (buffer m))
    /\ points (buffer (object_of out))
       = skipn (q * Z.to_nat (batchSize o)) (points (buffer m)).
Proof.
  intros Hb. induction q as [|q IH];
    intros rs now m it eff0 m1 eff1 k1 Ho Hk Ha Hlen Hok H out; subst out.
  - unfold flush_loop in H. simpl in H. inversion H; subst.
    rewrite settle_done. simpl. rewrite !app_nil_r.
    repeat split.
  - destruct rs as [|[t r] rs]; [simpl in Hlen; lia|].
    inversion Hok as [|? ? Hr Hok']; subst. simpl in Hr.
    remember (Z.of_nat (S q)) as z eqn:Hz.
    unfold flush_loop in H.
    replace (JsNum.truthy (JsNum.Fin z)) with true in H
      by (simpl; destruct (Z.eqb_spec z 0); [lia|reflexivity]).
    rewrite Ho in H.
    destruct (fill (buffer m) it (batchSize o)) as [batch it'] eqn:Hfill.
    injection H as Hm1 He1 Hk1. subst m1 eff1 k1.
    destruct (batch_taken (buffer m) it (batchSize o) batch it' Hk Ha
                ltac:(lia) Hfill) as (Hbatch & Hpts & Ha' & Hk').
    destruct r as [status|]; [|discriminate].
    simpl in Hr. rewrite settle_cons, flush_resume_ok by exact Hr.
    unfold fr_batch, fr_batches, fr_iterator.
    try change (JsNum.pred (JsNum.Fin z)) with (JsNum.Fin (z - 1)).
    replace (z - 1) with (Z.of_nat q) by lia.
    destruct (flush_loop t
                (set_buffer (delete_batch batch (buffer m)) m)
                (JsNum.Fin (Z.of_nat q)) it') as [[m2 e2] k2] eqn:Hl.
    cbv beta iota.
    match goal with
    | |- context [settle rs (m2, ?e ++ ?d :: e2, k2)] =>
        replace (e ++ d :: e2)
          with ((eff0 ++ [http (request o batch); d]) ++ e2)
          by (rewrite <- !app_assoc; reflexivity)
    end.
    destruct (IH rs t (set_buffer (delete_batch batch (buffer m)) m) it'
                (eff0 ++ [http (request o batch);
                app_log (debug_sent (JsNum.Fin (Z.of_nat q)) (length batch)
                                    (JsMap.size (buffer m)) status)])
                m2 e2 k2 Ho Hk' Ha'
                ltac:(simpl in Hlen; lia) Hok' Hl) as (Hs & Hsent & Hrest).
    split; [exact Hs|]. split.
    + rewrite Hsent, batches_sent_app, <- app_assoc. f_equal.
      simpl. cbn [set_buffer buffer] in *. rewrite Hpts, <- Hbatch.
      reflexivity.
    + rewrite Hrest. cbn [set_buffer buffer]. rewrite Hpts.
      rewrite skipn_skipn. f_equal. simpl. lia.
Qed.

Lemma settle_amid_done rs m (effects : list (Effect Payload)) :
  settle_amid rs (m, effects, None) = (m, effects, None).
Proof. destruct rs as [|[[g t] r] rs]; reflexivity. Qed.

Lemma settle_amid_cons g t r rs m (effects : list (Effect Payload)) fr :
  settle_amid ((g, t, r) :: rs) (m, effects, Some fr)
  = let '(m', effects', k) := flush_resume t (g m) fr r in
    settle_amid rs (m', effects ++ effects', k).
Proof. reflexivity. Qed.

(** [q] batches planned, every request answered in [200, 300): [q]
    requests go out, of at most [batchSize] points each, whatever else
    happens to the buffer between them. *)
Lemma flush_loop_amid (o : Options) :
  0 < batchSize o ->
  forall (q : nat) rs now m it eff0 m1 eff1 k1,
    options m = Some o ->
    (q <= length rs)%nat ->
    Forall (@delivered Payload) rs ->
    flush_loop now m (JsNum.Fin (Z.of_nat q)) it = (m1, eff1, k1) ->
    let out := settle_amid rs (m1, eff0 ++ eff1, k1) in
    let bounded := fun batch : list (Point Payload) =>
                     Z.of_nat (length batch) <= batchSize o in
    suspended_of out = None
    /\ length (batches_sent (effects_of out))
       = (length (batches_sent eff0) + q)%nat
    /\ (Forall bounded (batches_sent eff0) ->
        Forall bounded (batches_sent (effects_of out))).
Proof.
  intros Hb. induction q as [|q IH];
    intros rs now m it eff0 m1 eff1 k1 Ho Hlen Hok H out bounded;
    subst out bounded.
  - unfold flush_loop in H. simpl in H. inversion H; subst.
    rewrite settle_amid_done. unfold effects_of, suspended_of. simpl.
    rewrite !app_nil_r.
    split; [reflexivity|]. split; [lia|auto].
  - destruct rs as [|[[g t] r] rs]; [simpl in Hlen; lia|].
    inversion Hok as [|? ? [Hr Hg] Hok']; subst. simpl in Hr, Hg.
    remember (Z.of_nat (S q)) as z eqn:Hz.
    unfold flush_loop in H.
    replace (JsNum.truthy (JsNum.Fin z)) with true in H
      by (simpl; destruct (Z.eqb_spec z 0); [lia|reflexivity]).
    rewrite Ho in H.
    destruct (fill (buffer m) it (batchSize o)) as [batch it'] eqn:Hfill.
    injection H as Hm1 He1 Hk1. subst m1 eff1 k1.
    pose proof (fill_bounded (buffer m) it (batchSize o) ltac:(lia)) as Hbound.
    rewrite Hfill in Hbound. simpl in Hbound.
    destruct r as [status|]; [|discriminate].
    simpl in Hr. rewrite settle_amid_cons, flush_resume_ok by exact Hr.
    unfold fr_batch, fr_batches, fr_iterator.
    try change (JsNum.pred (JsNum.Fin z)) with (JsNum.Fin (z - 1)).
    replace (z - 1) with (Z.of_nat q) by lia.
    destruct (flush_loop t
                (set_buffer (delete_batch batch (buffer (g m))) (g m))
                (JsNum.Fin (Z.of_nat q)) it') as [[m2 e2] k2] eqn:Hl.
    cbv beta iota.
    match goal with
    | |- context [settle_amid rs (m2, ?e ++ ?d :: e2, k2)] =>
        replace (e ++ d :: e2)
          with ((eff0 ++ [http (request o batch); d]) ++ e2)
          by (rewrite <- !app_assoc; reflexivity)
    end.
    destruct (IH rs t (set_buffer (delete_batch batch (buffer (g m))) (g m))
                it'
                (eff0 ++ [http (request o batch);
                  app_log (debug_sent (JsNum.Fin (Z.of_nat q)) (length batch)
                                      (JsMap.size (buffer (g m))) status)])
                m2 e2 k2 ltac:(simpl; rewrite Hg; exact Ho)
                ltac:(simpl in Hlen; lia) Hok' Hl) as (Hs & Hcount & Hall).
    split; [exact Hs|]. split.
    + rewrite Hcount, batches_sent_app, length_app. simpl. lia.
    + intros H0. apply Hall. rewrite batches_sent_app.
      apply Forall_app. split; [exact H0|].
      simpl. constructor; [exact Hbound|constructor].
Qed.

End FlushRun.

(** ** The order of the points in a batch *)
Section FlushOrder.
Context {Payload : Type}.
Implicit Types (m : MongoDb Payload) (fr : FlushFrame Payload)
               (b : JsMap.t (Point Payload)) (it : JsMap.iterator).

(** Whatever [c], the inner loop takes the live entries of consecutive
    slots. *)
Lemma fill_from_run (rest : list (JsMap.slot (Point Payload))) :
  forall (i : nat) (c : Z),
    exists used rest2,
      rest = used ++ rest2
      /\ fst (fill_from rest i c) = map snd (JsMap.entries used).
Proof.
  induction rest as [|[[k p]|] rest IH]; intros i c; simpl.
  - exists [], []. destruct (c =? 0); split; reflexivity.
  - destruct (c =? 0).
    + exists [], (Some (k, p) :: rest). split; reflexivity.
    + destruct (IH (S i) (c - 1)) as (used & rest2 & -> & Hb).
      destruct (fill_from (used ++ rest2) (S i) (c - 1)) as [batch it].
      simpl in *. subst batch.
      exists (Some (k, p) :: used), rest2. split; reflexivity.
  - destruct (c =? 0).
    + exists [], (None :: rest). split; reflexivity.
    + destruct (IH (S i) c) as (used & rest2 & -> & Hb).
      exists (None :: used), rest2. split; [reflexivity|exact Hb].
Qed.

Lemma fill_run b it (c : Z) : is_run (fst (fill b it c)) (points b).
Proof.
  destruct it as [i|]; simpl.
  - destruct (fill_from_run (skipn i b) i c) as (used & rest2 & Hrest & ->).
    exists (map snd (JsMap.entries (firstn i b))),
           (map snd (JsMap.entries rest2)).
    unfold points. rewrite <- (firstn_skipn i b) at 1. rewrite Hrest.
    rewrite !JsMapFacts.entries_app, !map_app. reflexivity.
  - exists [], (points b). reflexivity.
Qed.

Lemma flush_loop_run now m batches it (batch : list (Point Payload)) :
  In batch (batches_sent (effects_of (flush_loop now m batches it))) ->
  is_run batch (points (buffer m))
  /\ buffer (object_of (flush_loop now m batches it)) = buffer m.
Proof.
  destruct (flush_loop now m batches it) as [[m' effects] k] eqn:H.
  apply flush_loop_cases in H. unfold effects_of, object_of. simpl.
  destruct k as [fr|].
  - destruct H as (-> & _ & _ & o & _ & -> & Hfill). simpl.
    intros [<-|[]]. split; [|reflexivity].
    pose proof (fill_run (buffer m) it (batchSize o)) as Hrun.
    rewrite Hfill in Hrun. exact Hrun.
  - destruct H as (-> & Hnone). unfold batches_sent. rewrite Hnone.
    intros [].
Qed.

(** Every batch a segment sends is a run of the buffer the segment
    leaves, which is the buffer the batch was taken from. *)
Lemma flush_run now m (batch : list (Point Payload)) :
  In batch (batches_sent (effects_of (flush now m))) ->
  is_run batch (points (buffer (object_of (flush now m)))).
Proof.
  unfold flush. destruct (flushing m); [intros []|].
  change (options (set_flushing true m)) with (options m).
  destruct (options m) as [o|]; [|intros []].
  intros Hin. apply flush_loop_run in Hin. destruct Hin as [Hrun ->].
  exact Hrun.
Qed.

Lemma flush_resume_ends now m fr r :
  ok r = false ->
  suspended_of (flush_resume now m fr r) = None
  /\ requests (effects_of (flush_resume now m fr r)) = []
  /\ object_of (flush_resume now m fr r) = finally now m.
Proof.
  intros Hr. destruct (flush_resume now m fr r) as [[m' effects] k] eqn:H.
  apply flush_resume_cases in H. unfold ok in Hr.
  unfold suspended_of, effects_of, object_of. simpl.
  destruct r as [status|].
  - rewrite Hr in H. destruct H as (-> & -> & He). repeat split. exact He.
  - destruct H as (-> & -> & He). repeat split. exact He.
Qed.

Lemma flush_resume_run now m fr r (batch : list (Point Payload)) :
  In batch (batches_sent (effects_of (flush_resume now m fr r))) ->
  is_run batch (points (buffer (object_of (flush_resume now m fr r)))).
Proof.
  destruct (ok r) eqn:Hr.
  - destruct r as [status|]; [|discriminate]. simpl in Hr.
    rewrite flush_resume_ok by exact Hr.
    pose proof (flush_loop_run now
                  (set_buffer (delete_batch (fr_batch fr) (buffer m)) m)
                  (fr_batches fr) (fr_iterator fr) batch) as Hloop.
    destruct (flush_loop now
                (set_buffer (delete_batch (fr_batch fr) (buffer m)) m)
                (fr_batches fr) (fr_iterator fr)) as [[m2 e2] k2].
    unfold effects_of, object_of in *. simpl in *.
    intros Hin. destruct (Hloop Hin) as [Hrun ->]. exact Hrun.
  - destruct (flush_resume_ends now m fr r Hr) as (_ & Hnone & _).
    unfold batches_sent. rewrite Hnone. intros [].
Qed.

Lemma map_fst_paired {A B : Type} (l : list A) (x : B) :
  map fst (map (fun a => (a, x)) l) = l.
Proof. rewrite map_map. simpl. apply map_id. Qed.

(** [batches_taken] lists the batches that the run sends. *)
Lemma batches_taken_sent rs :
  forall m (e0 e : list (Effect Payload)) k,
    batches_sent (effects_of (settle_amid rs (m, e0 ++ e, k)))
    = batches_sent e0 ++ map fst (batches_taken rs (m, e, k)).
Proof.
  induction rs as [|[[g t] r] rs IH]; intros m e0 e k.
  - simpl. unfold effects_of, object_of. simpl.
    rewrite app_nil_r, map_fst_paired. apply batches_sent_app.
  - destruct k as [fr|].
    + rewrite settle_amid_cons. cbn [batches_taken].
      destruct (flush_resume t (g m) fr r) as [[m' e'] k'].
      rewrite IH, map_app, map_fst_paired, batches_sent_app, <- app_assoc.
      reflexivity.
    + rewrite settle_amid_done. cbn [batches_taken].
      unfold effects_of, object_of. simpl.
      rewrite app_nil_r, map_fst_paired. apply batches_sent_app.
Qed.

Lemma batches_taken_runs rs :
  forall out : Outcome Payload,
    (forall batch, In batch (batches_sent (effects_of out)) ->
                   is_run batch (points (buffer (object_of out)))) ->
    Forall (fun taken => is_run (fst taken) (snd taken))
           (batches_taken rs out).
Proof.
  induction rs as [|[[g t] r] rs IH]; intros [[m e] k] Hout;
    cbn [batches_taken]; apply Forall_app; split;
    try (apply Forall_forall; intros taken Ht; apply in_map_iff in Ht;
         destruct Ht as (batch & <- & Hb); simpl; apply Hout; exact Hb);
    try constructor.
  destruct k as [fr|]; [|constructor].
  apply IH. intros batch. apply flush_resume_run.
Qed.

End FlushOrder.

(** C5, as the code has it.  A flush that starts with [n] buffered points
    plans [floor(n / batchSize)] batches, and one more exactly when
    [now > flushExpiry].  When every request is answered by a status in
    [200, 300) it sends exactly the planned number of batches, whatever is
    sent or evicted meanwhile, each filled in insertion order with up to
    [batchSize] points: a run of consecutive points of the buffer as it
    stands when the batch is built, as is every batch of every segment of a
    flush.  A request rejected, or answered by another status, ends the
    flush with no further batch (see C3).  Run on its own, the flush sends
    the consecutive runs of [batchSize] points (the last one shorter, or
    empty), each deleted on its answer, the points beyond them staying
    buffered. *)
Theorem flush_sends_planned_batches :
  forall (Payload : Type) (m : MongoDb Payload) (o : Options) (now : Z),
    options m = Some o ->
    0 < batchSize o ->
    flushing m = false ->
    let planned := JsMap.size (buffer m) / batchSize o
                   + (if now >? flushExpiry m then 1 else 0) in
    (forall rs,
        Forall (@delivered Payload) rs ->
        planned <= Z.of_nat (length rs) ->
        let out := flush_amid now m rs in
        let sent := batches_sent (effects_of out) in
        suspended_of out = None
        /\ Z.of_nat (length sent) = planned
        /\ Forall (fun batch => Z.of_nat (length batch) <= batchSize o) sent
        /\ map fst (batches_taken rs (flush now m)) = sent
        /\ Forall (fun taken => is_run (fst taken) (snd taken))
                  (batches_taken rs (flush now m)))
    /\ (forall now' (m' : MongoDb Payload) fr r batch,
          (In batch (batches_sent (effects_of (flush now' m'))) ->
           is_run batch (points (buffer (object_of (flush now' m'))))
           /\ buffer (object_of (flush now' m')) = buffer m')
          /\ (In batch (batches_sent (effects_of (flush_resume now' m' fr r))) ->
              is_run batch
                (points (buffer (object_of (flush_resume now' m' fr r))))))
    /\ (forall now' (m' : MongoDb Payload) fr r,
          ok r = false ->
          suspended_of (flush_resume now' m' fr r) = None
          /\ requests (effects_of (flush_resume now' m' fr r)) = []
          /\ buffer (object_of (flush_resume now' m' fr r)) = buffer m')
    /\ (forall rs,
          well_keyed (buffer m) ->
          Forall (fun tr => ok (snd tr) = true) rs ->
          planned <= Z.of_nat (length rs) ->
          let out := flush_alone now m rs in
          let sent := batches_sent (effects_of out) in
          suspended_of out = None
          /\ sent = chunks (Z.to_nat planned) (Z.to_nat (batchSize o))
                           (points (buffer m))
          /\ points (buffer (object_of out))
             = skipn (Z.to_nat planned * Z.to_nat (batchSize o))
                     (points (buffer m))).
Proof.
  intros Payload m o now Ho Hb Hf planned.
  assert (0 <= planned) as Hpos.
  { subst planned.
    pose proof (JsMapFacts.size_nonneg (buffer m)) as Hn.
    pose proof (Z.div_pos _ _ Hn Hb).
    destruct (now >? flushExpiry m); lia. }
  assert (flush now m
          = flush_loop now (set_flushing true m)
                       (JsNum.Fin (Z.of_nat (Z.to_nat planned))) (JsMap.Iter 0))
    as Hflush.
  { unfold flush. rewrite Hf.
    change (options (set_flushing true m)) with (options m). rewrite Ho.
    change (flushExpiry (set_flushing true m)) with (flushExpiry m).
    change (buffer (set_flushing true m)) with (buffer m).
    unfold JsNum.floor_div.
    destruct (Z.eqb_spec (batchSize o) 0) as [|_]; [lia|].
    rewrite Z2Nat.id by exact Hpos. subst planned.
    destruct (now >? flushExpiry m); simpl; rewrite ?Z.add_0_r; reflexivity. }
  split; [|split; [|split]].
  - intros rs Hok Hrs out sent. subst sent out.
    assert (batches_sent (effects_of (flush_amid now m rs))
            = map fst (batches_taken rs (flush now m))) as Htaken.
    { unfold flush_amid. destruct (flush now m) as [[m0 e0] k0].
      apply (batches_taken_sent rs m0 [] e0 k0). }
    assert (Forall (fun taken => is_run (fst taken) (snd taken))
                   (batches_taken rs (flush now m))) as Hruns.
    { apply batches_taken_runs. intros batch. apply flush_run. }
    unfold flush_amid in *. rewrite Hflush in *.
    destruct (flush_loop now (set_flushing true m)
                (JsNum.Fin (Z.of_nat (Z.to_nat planned))) (JsMap.Iter 0))
      as [[m1 e1] k1] eqn:Hloop.
    destruct (flush_loop_amid o Hb (Z.to_nat planned) rs now
                (set_flushing true m) (JsMap.Iter 0) [] m1 e1 k1
                Ho ltac:(lia) Hok Hloop) as (Hs & Hcount & Hall).
    simpl in Hs, Hcount, Hall.
    split; [exact Hs|]. split; [rewrite Hcount; lia|].
    split; [apply Hall; constructor|].
    split; [symmetry; exact Htaken|exact Hruns].
  - intros now' m' fr r batch. split.
    + intros Hin. split; [apply flush_run; exact Hin|].
      destruct (flush now' m') as [[m2 e2] k2] eqn:Hfl.
      apply flush_frame in Hfl. unfold object_of. simpl. tauto.
    + apply flush_resume_run.
  - intros now' m' fr r Hr.
    destruct (flush_resume_ends now' m' fr r Hr) as (Hs & Hnone & ->).
    repeat split; assumption.
  - intros rs Hk Hok Hrs out sent. subst sent out.
    unfold flush_alone. rewrite Hflush.
    destruct (flush_loop now (set_flushing true m)
                (JsNum.Fin (Z.of_nat (Z.to_nat planned))) (JsMap.Iter 0))
      as [[m1 e1] k1] eqn:Hloop.
    exact (flush_loop_alone o Hb (Z.to_nat planned) rs now
             (set_flushing true m) (JsMap.Iter 0) [] m1 e1 k1
             Ho Hk eq_refl ltac:(lia) Hok Hloop).
Qed.

Lemma flush_sends_planned_batches_witness :
  let m := obj Demo.loaded in
  let rs := [(50, superagent.resolved 200); (60, superagent.resolved 200)] in
  let out := flush_alone 40 m rs in
  let sent := batches_sent (effects_of out) in
  let all_expired := fun m : MongoDb string =>
                       set_buffer (evict 500000 (buffer m) (buffer m)) m in
  let busy := [(all_expired, 50, superagent.resolved 200);
               (all_expired, 60, superagent.resolved 200)] in
  (options m = Some Demo.opts /\ 0 < batchSize Demo.opts
   /\ flushing m = false /\ JsMap.size (buffer m) = 25
   /\ batchSize Demo.opts = 10 /\ (40 >? flushExpiry m) = false)
  /\ (suspended_of out = None
      /\ sent = chunks 2 10 (points (buffer m))
      /\ points (buffer (object_of out)) = skipn 20 (points (buffer m)))
  /\ map (@length (Point string)) sent = [10; 10]%nat
  /\ length (points (buffer (object_of out))) = 5%nat
  /\ (suspended_of (flush_amid 40 m busy) = None
      /\ Z.of_nat (length (batches_sent (effects_of (flush_amid 40 m busy))))
         = 2
      /\ Forall (fun batch : list (Point string) =>
                   Z.of_nat (length batch) <= 10)
                (batches_sent (effects_of (flush_amid 40 m busy)))
      /\ map fst (batches_taken busy (flush 40 m))
         = batches_sent (effects_of (flush_amid 40 m busy))
      /\ Forall (fun taken => is_run (fst taken) (snd taken))
                (batches_taken busy (flush 40 m)))
  /\ (In (firstn 10 (points (buffer m)))
         (batches_sent (effects_of (flush 40 m)))
      /\ is_run (firstn 10 (points (buffer m))) (points (buffer m)))
  /\ (ok superagent.rejected = false
      /\ suspended_of (flush_alone 40 m [(50, superagent.rejected)]) = None).
Proof.
  intros m rs out sent all_expired busy.
  split; [vm_compute; repeat split; reflexivity|].
  assert (well_keyed (buffer m)) as Hk.
  { exact (proj1 (proj2 (invariant_run Demo.stringify Demo.opts _
                           (boot 0 Demo.opts) (invariant_boot Demo.opts 0)))). }
  assert (Forall (fun tr : Z * superagent.Response => ok (snd tr) = true) rs)
    as Hok by (repeat constructor).
  assert (Forall (@delivered string) busy) as Hbusy.
  { repeat constructor. }
  destruct (flush_sends_planned_batches string m Demo.opts 40
              eq_refl eq_refl eq_refl) as (Hamid & Hseg & Hends & Halone).
  split.
  { exact (Halone rs Hk Hok ltac:(vm_compute; discriminate)). }
  split; [reflexivity|]. split; [reflexivity|].
  split.
  { exact (Hamid busy Hbusy ltac:(vm_compute; discriminate)). }
  split.
  { assert (In (firstn 10 (points (buffer m)))
               (batches_sent (effects_of (flush 40 m)))) as Hin
      by (vm_compute; left; reflexivity).
    split; [exact Hin|].
    destruct (proj1 (Hseg 40 m
                       {| fr_batches := JsNum.Fin 0;
                          fr_iterator := JsMap.Done;
                          fr_batch := [] |}
                       superagent.rejected
                       (firstn 10 (points (buffer m)))) Hin)
      as (Hrun & Hbuf).
    rewrite Hbuf in Hrun. exact Hrun. }
  split; [reflexivity|].
  destruct (flush 40 m) as [[m1 e1] [fr|]] eqn:Hfl;
    [|unfold flush_alone; rewrite Hfl; reflexivity].
  unfold flush_alone. rewrite Hfl. simpl.
  pose proof (proj1 (Hends 50 m1 fr superagent.rejected eq_refl)) as Hs.
  destruct (flush_resume 50 m1 fr superagent.rejected) as [[m2 e2] k2].
  simpl in Hs. subst k2. reflexivity.
Defined.

(** C5, as stated, fails when a request is not delivered: 25 points
    buffered, [batchSize] 10, [now <= flushExpiry], the request of the
    first batch rejected.  One batch has gone out, not [floor(25/10) = 2],
    and 25 points stay buffered, not 5. *)
Lemma flush_batches_counterexample :
  let m := obj Demo.loaded in
  let out := flush_alone 40 m [(50, superagent.rejected)] in
  let sent := batches_sent (effects_of out) in
  (JsMap.size (buffer m) = 25 /\ options m = Some Demo.opts
   /\ batchSize Demo.opts = 10 /\ flushing m = false
   /\ (40 >? flushExpiry m) = false)
  /\ suspended_of out = None
  /\ Z.of_nat (length sent) = 1
  /\ Z.of_nat (length sent) <> JsMap.size (buffer m) / batchSize Demo.opts
  /\ JsMap.size (buffer (object_of out)) = 25
  /\ JsMap.size (buffer (object_of out)) <> 5.
Proof.
  vm_compute. repeat split; discriminate.
Qed.

(** ** The fingerprint *)
Section HashFacts.
Import Int32.








(** The order of reading matters to the value. *)
Lemma fingerprint_reads_backwards :
  Fingerprint.fingerprint [97; 98] <> Fingerprint.fingerprint (rev [97; 98]).
Proof. vm_compute. discriminate. Qed.

End HashFacts.



(** C7, as the code has it.  A housekeeping tick deletes the buffered
    points with [expiry < now] and no others: right after the tick the
    buffer holds, in their order, exactly the points with [now <= expiry],
    a point expiring at the very instant of the tick included. *)
Theorem housekeeping_evicts_expired :
  forall (Payload : Type) (m : MongoDb Payload) (now : Z),
    well_keyed (buffer m) ->
    let m' := object_of (housekeeping now m) in
    JsMap.entries (buffer m')
    = filter (fun e => now <=? expiry (snd e)) (JsMap.entries (buffer m))
    /\ (forall e, In e (JsMap.entries (buffer m')) -> now <= expiry (snd e))
    /\ (forall e, In e (JsMap.entries (buffer m)) ->
                  now <= expiry (snd e) -> In e (JsMap.entries (buffer m'))).
Proof.
  intros Payload m now [Hnd _] m'.
  assert (JsMap.entries (buffer m')
          = filter (fun e => now <=? expiry (snd e)) (JsMap.entries (buffer m)))
    as Heq.
  { subst m'. unfold housekeeping.
    assert (forall out : Outcome Payload,
               buffer (object_of out) = evict now (buffer m) (buffer m) ->
               JsMap.entries (buffer (object_of out))
               = filter (fun e => now <=? expiry (snd e))
                        (JsMap.entries (buffer m))) as Hout.
    { intros out ->. rewrite entries_evict by exact Hnd.
      apply filter_ext. intros e. unfold expired.
      destruct (Z.gtb_spec now (expiry (snd e))),
               (Z.leb_spec now (expiry (snd e))); simpl; try reflexivity; lia. }
    apply Hout.
    match goal with |- context [if ?c then _ else _] => destruct c end;
      [|reflexivity].
    destruct (flush now _) as [[m1 e1] k1] eqn:Hfl.
    apply flush_frame in Hfl. destruct Hfl as (Hb & _). exact Hb. }
  split; [exact Heq|]. split.
  - intros e He. rewrite Heq in He. apply filter_In in He.
    destruct He as [_ He]. apply Z.leb_le. exact He.
  - intros e He Hlive. rewrite Heq. apply filter_In.
    split; [exact He|]. apply Z.leb_le. exact Hlive.
Qed.

Lemma housekeeping_evicts_expired_witness :
  let m := obj (run Demo.stringify (boot 0 Demo.opts) (Demo.sends 1 3)) in
  let m' := object_of (housekeeping 180002 m) in
  (well_keyed (buffer m)
   /\ map (@expiry string) (points (buffer m)) = [180001; 180002; 180003])
  /\ JsMap.entries (buffer m')
     = filter (fun e => 180002 <=? expiry (snd e)) (JsMap.entries (buffer m))
  /\ map (@expiry string) (points (buffer m')) = [180002; 180003].
Proof.
  intros m m'.
  assert (well_keyed (buffer m)) as Hk.
  { exact (proj1 (proj2 (invariant_run Demo.stringify Demo.opts _
                           (boot 0 Demo.opts) (invariant_boot Demo.opts 0)))). }
  split; [split; [exact Hk|reflexivity]|].
  split; [|reflexivity].
  exact (proj1 (housekeeping_evicts_expired string m 180002 Hk)).
Defined.

(** C7, as stated, fails for a point that expires at the instant of the
    tick: sent at time 1 with a time-to-live of 180 s, it expires at
    180001; the tick at 180001 finds [expiry <= now] and keeps it. *)
Lemma housekeeping_counterexample :
  let m := obj (run Demo.stringify (boot 0 Demo.opts) (Demo.sends 1 1)) in
  let m' := object_of (housekeeping 180001 m) in
  map (@expiry string) (points (buffer m)) = [180001]
  /\ map (@expiry string) (points (buffer m')) = [180001]
  /\ exists p, In p (points (buffer m')) /\ expiry p <= 180001.
Proof.
  intros m m'.
  assert (map (@expiry string) (points (buffer m')) = [180001]) as H by reflexivity.
  split; [reflexivity|]. split; [exact H|].
  destruct (points (buffer m')) as [|p [|]]; try discriminate.
  exists p. split; [left; reflexivity|].
  inversion H as [Hp]. lia.
Qed.

(** ** Starting with [flushSecs] 0 *)
Section FlushSecsZero.
Context {Payload : Type}.

Lemma boot_flushSecs_zero (opts : Options) (now0 : Z) :
  flushSecs opts = Some 0 ->
  let m := obj (boot (Payload := Payload) now0 opts) in
  options m = Some opts /\ buffer m = JsMap.empty /\ flushing m = false
  /\ flushExpiry m = now0 /\ flushMillis m = 0.
Proof.
  intros Hf. unfold boot, start. rewrite Hf. simpl.
  destruct (ttlSecs opts); repeat split.
Qed.

Lemma fill_from_no_entries (rest : list (JsMap.slot (Point Payload))) :
  JsMap.entries rest = [] ->
  forall (i : nat) (c : Z), fst (fill_from rest i c) = [].
Proof.
  induction rest as [|[e|] rest IH]; simpl; intros He i c.
  - destruct (c =? 0); reflexivity.
  - discriminate.
  - destruct (c =? 0); [reflexivity|]. apply IH. exact He.
Qed.

(** A flush called past [flushExpiry] on an empty buffer: one request,
    carrying no point, then nothing more to send. *)
Lemma flush_empty_overdue (m : MongoDb Payload) (o : Options) (now : Z) :
  options m = Some o -> batchSize o <> 0 -> flushing m = false ->
  JsMap.size (buffer m) = 0 -> flushExpiry m < now ->
  exists fr,
    flush now m = (set_flushing true m, [http (request o [])], Some fr)
    /\ fr_batches fr = JsNum.Fin 0 /\ fr_batch fr = [].
Proof.
  intros Ho Hb Hf Hsize Hlate. unfold flush. rewrite Hf.
  change (options (set_flushing true m)) with (options m). rewrite Ho.
  change (flushExpiry (set_flushing true m)) with (flushExpiry m).
  change (buffer (set_flushing true m)) with (buffer m).
  rewrite Hsize. unfold JsNum.floor_div.
  destruct (Z.eqb_spec (batchSize o) 0) as [|_]; [contradiction|].
  rewrite Z.div_0_l by exact Hb.
  destruct (Z.gtb_spec now (flushExpiry m)) as [_|]; [|lia].
  unfold flush_loop. simpl JsNum.truthy. cbv iota.
  change (options (set_flushing true m)) with (options m). rewrite Ho.
  change (buffer (set_flushing true m)) with (buffer m).
  destruct (fill (buffer m) (JsMap.Iter 0) (batchSize o)) as [batch it] eqn:Hfill.
  assert (batch = []) as ->.
  { unfold fill in Hfill. simpl skipn in Hfill.
    pose proof (fill_from_no_entries (buffer m)
                  (JsMapFacts.size_zero_entries _ Hsize) 0%nat (batchSize o))
      as Hnone.
    rewrite Hfill in Hnone. exact Hnone. }
  eexists. split; [reflexivity|]. split; reflexivity.
Qed.

End FlushSecsZero.

(** C8, at the failing configuration.  With [flushSecs] 0 the deadline
    comparison is still made, against a [flushExpiry] that was never moved
    into the future: the first point sent after the start is flushed at
    once, alone, though the buffer is below [batchSize]; and a housekeeping
    tick issues a request too, with no point in it. *)
Theorem flushSecs_zero_still_flushes :
  forall (Payload : Type) (stringify : Payload -> Z -> Z -> option (list Z))
         (opts : Options) (now0 now : Z) (raw : Raw Payload) (p : Point Payload),
    flushSecs opts = Some 0 ->
    1 < batchSize opts ->
    0 < maxBuffer opts ->
    now0 < now ->
    getPoint stringify now (obj (boot now0 opts)) raw = Some p ->
    batches_sent (effects_of (send stringify now raw (obj (boot now0 opts))))
    = [[p]]
    /\ batches_sent
         (effects_of (housekeeping now (obj (@boot Payload now0 opts))))
       = [[]].
Proof.
  intros Payload stringify opts now0 now raw p Hf Hb Hmax Hlate Hp.
  destruct (boot_flushSecs_zero (Payload := Payload) opts now0 Hf)
    as (Ho & Hbuf & Hfl & Hexp & _).
  remember (obj (boot now0 opts)) as m eqn:Hm. clear Hm.
  split.
  - unfold send. rewrite Ho, Hbuf.
    change (JsMap.size (@JsMap.empty (Point Payload))) with 0.
    destruct (Z.geb_spec 0 (maxBuffer opts)) as [|_]; [lia|].
    rewrite Hp.
    change (JsMap.set (uid p) p JsMap.empty) with [Some (uid p, p)].
    change (JsMap.size (buffer (set_buffer [Some (uid p, p)] m))) with 1.
    change (flushExpiry (set_buffer [Some (uid p, p)] m)) with (flushExpiry m).
    rewrite Hexp.
    destruct (Z.gtb_spec now now0) as [_|]; [|lia]. rewrite orb_true_r.
    unfold flush.
    change (flushing (set_buffer [Some (uid p, p)] m)) with (flushing m).
    rewrite Hfl. cbn [options set_flushing set_buffer buffer flushExpiry].
    rewrite Ho, Hexp.
    change (JsMap.size [Some (uid p, p)]) with 1.
    unfold JsNum.floor_div.
    destruct (Z.eqb_spec (batchSize opts) 0) as [|_]; [lia|].
    rewrite Z.div_small by lia.
    destruct (Z.gtb_spec now now0) as [_|]; [|lia].
    unfold flush_loop. simpl JsNum.truthy. cbv iota.
    cbn [options buffer set_flushing set_buffer]. rewrite Ho.
    unfold fill. simpl skipn. simpl fill_from.
    destruct (Z.eqb_spec (batchSize opts) 0) as [|_]; [lia|].
    destruct (batchSize opts - 1 =? 0); reflexivity.
  - unfold housekeeping. rewrite Hbuf.
    change (evict now JsMap.empty JsMap.empty) with (@JsMap.empty (Point Payload)).
    change (flushExpiry (set_buffer JsMap.empty m)) with (flushExpiry m).
    rewrite Hexp.
    destruct (Z.gtb_spec now now0) as [_|]; [|lia].
    destruct (flush_empty_overdue (set_buffer JsMap.empty m) opts now)
      as (fr & -> & _); try assumption; try reflexivity; try lia.
    simpl. lia.
Qed.

Lemma flushSecs_zero_still_flushes_witness :
  let m := obj (@boot string 0 Demo.unflushed) in
  (flushSecs Demo.unflushed = Some 0 /\ 1 < batchSize Demo.unflushed
   /\ 0 < maxBuffer Demo.unflushed /\ 0 < 5)
  /\ map (map (@payload string))
         (batches_sent (effects_of (send Demo.stringify 5 (Demo.raw 1) m)))
     = [["environment.wind.1"%string]]
  /\ batches_sent (effects_of (housekeeping 5 m)) = [[]].
Proof.
  cbv zeta.
  split; [repeat split; reflexivity|].
  destruct (getPoint Demo.stringify 5 (obj (@boot string 0 Demo.unflushed))
                     (Demo.raw 1)) as [p|] eqn:Hp;
    [|vm_compute in Hp; discriminate].
  destruct (flushSecs_zero_still_flushes string Demo.stringify Demo.unflushed
              0 5 (Demo.raw 1) p eq_refl eq_refl eq_refl eq_refl Hp)
    as [Hsend Htick].
  split; [|exact Htick].
  rewrite Hsend. vm_compute in Hp. inversion Hp. reflexivity.
Defined.

(** C9, as the code has it.  Each batch goes out as one request to
    [apiUrl], with the headers [Content-Type: application/json],
    [accept: json] and [api-key: apiKey], 2 retries, a response timeout of
    10000 ms and a deadline of 25000 ms, the batch as its body: and always
    with the method PUT, whatever [apiMethod] says.  No segment of a flush
    issues more than one request, nor any other kind of request. *)
Theorem batch_request_is_always_put :
  forall (Payload : Type) (o : Options) (batch : list (Point Payload)),
    let r := request o batch in
    (superagent.method r = superagent.PUT
     /\ superagent.url r = apiUrl o
     /\ superagent.headers r
        = [("Content-Type", "application/json"); ("accept", "json");
           ("api-key", apiKey o)]%string
     /\ superagent.retries r = 2
     /\ superagent.response_timeout r = Some 10000
     /\ superagent.deadline_timeout r = Some 25000
     /\ superagent.body r = Some batch)
    /\ (forall method, request (set_apiMethod method o) batch = r)
    /\ (forall now (m : MongoDb Payload),
          (length (requests (effects_of (flush now m))) <= 1)%nat
          /\ Forall (fun r' => exists o' batch',
                                 options m = Some o' /\ r' = request o' batch')
                    (requests (effects_of (flush now m))))
    /\ (forall now (m : MongoDb Payload) fr response,
          (length (requests (effects_of (flush_resume now m fr response))) <= 1)%nat
          /\ Forall (fun r' => exists o' batch',
                                 options m = Some o' /\ r' = request o' batch')
                    (requests (effects_of (flush_resume now m fr response)))).
Proof.
  intros Payload o batch r. split; [repeat split|]. split; [reflexivity|].
  split.
  - intros now m. destruct (flush now m) as [[m' effects] k] eqn:H.
    unfold effects_of. simpl.
    destruct (flushing m) eqn:Hf.
    + rewrite (flush_busy now m Hf) in H. inversion H; subst. simpl.
      split; [lia|constructor].
    + apply (flush_cases now m m' effects k Hf) in H.
      destruct k as [fr|].
      * destruct H as (_ & o' & Ho' & ->). simpl. split; [lia|].
        constructor; [|constructor]. exists o', (fr_batch fr). auto.
      * destruct H as (_ & ->). simpl. split; [lia|constructor].
  - intros now m fr response.
    destruct (flush_resume now m fr response) as [[m' effects] k] eqn:H.
    unfold effects_of. simpl. apply flush_resume_cases in H.
    assert (requests effects = [] ->
            (length (requests effects) <= 1)%nat
            /\ Forall (fun r' => exists o' batch',
                                   options m = Some o' /\ r' = request o' batch')
                      (requests effects)) as Hnone.
    { intros ->. simpl. split; [lia|constructor]. }
    destruct response as [status|].
    + destruct ((status >=? 200) && (status <? 300)).
      * destruct H as (_ & H). destruct k as [fr'|].
        -- destruct H as (_ & _ & _ & o' & Ho' & ->). simpl. split; [lia|].
           constructor; [|constructor]. exists o', (fr_batch fr'). auto.
        -- destruct H as (_ & He). auto.
      * destruct H as (_ & _ & He). auto.
    + destruct H as (_ & _ & He). auto.
Qed.

(** C9 at the failing input: options asking for POST, a request made
    with PUT. *)
Lemma post_configured_put_sent :
  apiMethod Demo.opts = "POST"%string
  /\ superagent.method (request (Payload := string) Demo.opts [])
     = superagent.PUT.
Proof. split; reflexivity. Qed.

(** C10, as the code has it.  With a [batchSize] other than 0, a flush
    that starts, with no other flush running, on an empty buffer past
    [flushExpiry] issues one request, whose body is the empty batch, and on
    its answer, whatever and whenever it is, ends without another. *)
Theorem overdue_flush_sends_empty_batch :
  forall (Payload : Type) (m : MongoDb Payload) (o : Options) (now : Z),
    options m = Some o ->
    batchSize o <> 0 ->
    flushing m = false ->
    JsMap.size (buffer m) = 0 ->
    flushExpiry m < now ->
    exists fr,
      flush now m = (set_flushing true m, [http (request o [])], Some fr)
      /\ batches_sent (effects_of (flush now m)) = [[]]
      /\ forall now' (m' : MongoDb Payload) response,
           requests (effects_of (flush_resume now' m' fr response)) = []
           /\ suspended_of (flush_resume now' m' fr response) = None.
Proof.
  intros Payload m o now Ho Hb Hf Hsize Hlate.
  destruct (flush_empty_overdue m o now Ho Hb Hf Hsize Hlate)
    as (fr & Hflush & Hbatches & _).
  exists fr. split; [exact Hflush|]. split; [rewrite Hflush; reflexivity|].
  intros now' m' response.
  destruct (flush_resume now' m' fr response) as [[m2 effects] k] eqn:H.
  unfold effects_of, suspended_of. simpl.
  apply flush_resume_cases in H.
  destruct response as [status|].
  - destruct ((status >=? 200) && (status <? 300)).
    + destruct H as (_ & H). destruct k as [fr'|].
      * destruct H as (_ & _ & Ht & _). rewrite Hbatches in Ht. discriminate.
      * destruct H as (_ & He). split; [exact He|reflexivity].
    + destruct H as (_ & -> & He). split; [exact He|reflexivity].
  - destruct H as (_ & -> & He). split; [exact He|reflexivity].
Qed.

Lemma overdue_flush_sends_empty_batch_witness :
  let m := obj (@boot string 0 Demo.opts) in
  (options m = Some Demo.opts /\ batchSize Demo.opts <> 0
   /\ flushing m = false /\ JsMap.size (buffer m) = 0
   /\ flushExpiry m < 60001)
  /\ exists fr,
      flush 60001 m = (set_flushing true m, [http (request Demo.opts [])], Some fr)
      /\ batches_sent (effects_of (flush 60001 m)) = [[]]
      /\ requests (effects_of (flush_resume 60100 (set_flushing true m) fr
                                 (superagent.resolved 200))) = []
      /\ suspended_of (flush_resume 60100 (set_flushing true m) fr
                         (superagent.resolved 200)) = None.
Proof.
  cbv zeta.
  assert (batchSize Demo.opts <> 0) as Hb by discriminate.
  assert (flushExpiry (obj (@boot string 0 Demo.opts)) < 60001) as Hlate
    by reflexivity.
  split; [repeat split; assumption || reflexivity|].
  destruct (overdue_flush_sends_empty_batch string
              (obj (@boot string 0 Demo.opts)) Demo.opts 60001
              eq_refl Hb eq_refl eq_refl Hlate)
    as (fr & Hflush & Hsent & Hresume).
  exists fr. split; [exact Hflush|]. split; [exact Hsent|].
  exact (Hresume 60100 (set_flushing true (obj (@boot string 0 Demo.opts)))
                 (superagent.resolved 200)).
Defined.

(** C10, as stated, fails when [batchSize] is 0: the batch count is
    [Math.floor(0 / 0)], not a number, which the increment leaves so and
    the loop takes for false.  Started at 0 with a flush interval of 60 s,
    the flush called at 60001 on the empty buffer issues no request. *)
Lemma overdue_flush_counterexample :
  let o := {| apiUrl := apiUrl Demo.opts; apiKey := apiKey Demo.opts;
              apiMethod := apiMethod Demo.opts; batchSize := 0;
              flushSecs := flushSecs Demo.opts;
              maxBuffer := maxBuffer Demo.opts;
              ttlSecs := ttlSecs Demo.opts |} in
  let m := obj (@boot string 0 o) in
  (options m = Some o /\ flushing m = false /\ JsMap.size (buffer m) = 0
   /\ flushExpiry m = 60000 /\ (60001 >? flushExpiry m) = true)
  /\ requests (effects_of (flush 60001 m)) = []
  /\ suspended_of (flush 60001 m) = None.
Proof.
  vm_compute. repeat split.
Qed.

(** * Further properties of [mongodb.js] *)

(** ** The arithmetic of the hash *)
Section HashBounds.
Import Int32.

Lemma to_int32_range (z : Z) : - 2 ^ 31 <= to_int32 z < 2 ^ 31.
Proof.
  unfold to_int32, two32.
  pose proof (Z.mod_pos_bound (z + 2 ^ 31) (2 ^ 32) ltac:(lia)). lia.
Qed.

Lemma to_uint32_range (z : Z) : 0 <= to_uint32 z < 2 ^ 32.
Proof. unfold to_uint32, two32. apply Z.mod_pos_bound. lia. Qed.

Lemma hash_step_range (h c : Z) : - 2 ^ 31 <= hash_step h c < 2 ^ 31.
Proof. unfold hash_step, xor. apply to_int32_range. Qed.

Lemma hash_loop_range (json : list Z) :
  forall (i : nat) (h1 h2 : Z),
    - 2 ^ 31 <= h1 < 2 ^ 31 -> - 2 ^ 31 <= h2 < 2 ^ 31 ->
    - 2 ^ 31 <= fst (hash_loop i json h1 h2) < 2 ^ 31
    /\ - 2 ^ 31 <= snd (hash_loop i json h1 h2) < 2 ^ 31.
Proof.
  induction i as [|i IH]; intros h1 h2 H1 H2; simpl; [split; assumption|].
  apply IH; apply hash_step_range.
Qed.

End HashBounds.

(** X1.  Whatever the serialized point, the two accumulators of [getPoint]
    remain 32-bit integers at every turn of the loop, so that each product
    [hash * 33] is an integer below [2^53] in magnitude, and the [uid] is
    an integer between 0 and [(2^32 - 1) * 4097], below [2^45]: every
    number of the computation is one a double holds exactly. *)
Theorem uid_is_an_exact_integer :
  forall (json : list Z) (i : nat),
    let h1 := fst (hash_loop i json 5381 52711) in
    let h2 := snd (hash_loop i json 5381 52711) in
    (- 2 ^ 31 <= h1 < 2 ^ 31 /\ - 2 ^ 31 <= h2 < 2 ^ 31)
    /\ (Z.abs (h1 * 33) < 2 ^ 53 /\ Z.abs (h2 * 33) < 2 ^ 53)
    /\ 0 <= hash json <= (2 ^ 32 - 1) * 4097
    /\ hash json < 2 ^ 45.
Proof.
  intros json i h1 h2.
  assert (- 2 ^ 31 <= h1 < 2 ^ 31 /\ - 2 ^ 31 <= h2 < 2 ^ 31) as [H1 H2]
    by (apply hash_loop_range; lia).
  split; [split; assumption|]. split; [lia|].
  unfold hash.
  destruct (hash_loop (length json) json 5381 52711) as [a1 a2].
  pose proof (to_uint32_range a1). pose proof (to_uint32_range a2). lia.
Qed.

(** ** More on the [Map] *)
Section JsMapLookup.
Context {V : Type}.
Implicit Types (m : JsMap.t V) (k : Z) (v : V).
Import JsMapFacts.

Lemma in_entries_set k v m (e : Z * V) :
  In e (JsMap.entries (JsMap.set k v m)) ->
  In e (JsMap.entries m) \/ e = (k, v).
Proof.
  unfold JsMap.set. destruct (JsMap.has k m) eqn:H.
  - rewrite entries_set_present. intros Hin.
    apply in_map_iff in Hin. destruct Hin as (e0 & <- & He0).
    destruct (fst e0 =? k); auto.
  - rewrite entries_app. simpl. intros Hin.
    apply in_app_or in Hin. destruct Hin as [Hin|[<-|[]]]; auto.
Qed.

Lemma get_set_other k k' v m :
  k' <> k -> JsMap.get k' (JsMap.set k v m) = JsMap.get k' m.
Proof.
  intros Hne. unfold JsMap.set. destruct (JsMap.has k m).
  - induction m as [|[[k0 v0]|] m IH]; simpl; [reflexivity| |exact IH].
    destruct (Z.eqb_spec k0 k) as [->|Hk0]; simpl.
    + destruct (Z.eqb_spec k k'); [congruence|exact IH].
    + rewrite IH. reflexivity.
  - induction m as [|[[k0 v0]|] m IH]; simpl.
    + destruct (Z.eqb_spec k k'); [congruence|reflexivity].
    + rewrite IH. reflexivity.
    + exact IH.
Qed.

Lemma get_some_in k v m :
  JsMap.get k m = Some v -> In (k, v) (JsMap.entries m).
Proof.
  induction m as [|[[k0 v0]|] m IH]; simpl; [discriminate| |exact IH].
  destruct (Z.eqb_spec k0 k) as [->|Hne].
  - intros H. inversion H; subst. left. reflexivity.
  - intros H. right. apply IH. exact H.
Qed.

Lemma in_get_some k v m :
  NoDup (JsMap.keys m) -> In (k, v) (JsMap.entries m) ->
  JsMap.get k m = Some v.
Proof.
  unfold JsMap.keys. intros Hnd Hin. rewrite get_entries.
  destruct (find (fun e => fst e =? k) (JsMap.entries m)) as [e|] eqn:Hf.
  - apply find_some in Hf. destruct Hf as [He Hk]. apply Z.eqb_eq in Hk.
    rewrite (NoDup_fst_inj _ e (k, v) Hnd He Hin Hk). reflexivity.
  - apply (find_none _ _ Hf) in Hin. simpl in Hin.
    rewrite Z.eqb_refl in Hin. discriminate.
Qed.

Lemma get_none_not_in k m :
  (forall v, ~ In (k, v) (JsMap.entries m)) -> JsMap.get k m = None.
Proof.
  intros H. destruct (JsMap.get k m) as [v|] eqn:Hg; [|reflexivity].
  exfalso. apply (H v). apply get_some_in. exact Hg.
Qed.

End JsMapLookup.

(** ** What each segment does to the object *)
Section Segments.
Context {Payload : Type}.
Variable stringify : Payload -> Z -> Z -> option (list Z).
Implicit Types (m : MongoDb Payload) (fr : FlushFrame Payload).

Lemma getPoint_fields now m raw p :
  getPoint stringify now m raw = Some p ->
  payload p = raw_payload raw
  /\ time p = match raw_time raw with Some t => t | None => now end
  /\ expiry p = now + ttlMillis m
  /\ exists json,
       stringify (payload p) (time p) (expiry p) = Some json
       /\ uid p = hash json.
Proof.
  unfold getPoint. intros H.
  destruct (stringify (raw_payload raw) _ _) as [json|] eqn:Hs;
    [|discriminate].
  inversion H; subst; simpl. repeat split.
  exists json. split; [exact Hs|reflexivity].
Qed.

(** A [send] that finds room and can stamp its point. *)
Lemma send_accepted now raw m o p :
  options m = Some o ->
  JsMap.size (buffer m) < maxBuffer o ->
  getPoint stringify now m raw = Some p ->
  send stringify now raw m
  = let m1 := set_buffer (JsMap.set (uid p) p (buffer m)) m in
    if (JsMap.size (buffer m1) >=? batchSize o) || (now >? flushExpiry m1)
    then flush now m1
    else (m1, [], None).
Proof.
  intros Ho Hroom Hp. unfold send. rewrite Ho.
  destruct (Z.geb_spec (JsMap.size (buffer m)) (maxBuffer o)); [lia|].
  rewrite Hp. reflexivity.
Qed.

Lemma send_accepted_buffer now raw m o p :
  options m = Some o ->
  JsMap.size (buffer m) < maxBuffer o ->
  getPoint stringify now m raw = Some p ->
  buffer (object_of (send stringify now raw m))
  = JsMap.set (uid p) p (buffer m).
Proof.
  intros Ho Hroom Hp. rewrite (send_accepted now raw m o p Ho Hroom Hp).
  cbv zeta.
  match goal with |- context [if ?c then _ else _] => destruct c end;
    [|reflexivity].
  destruct (flush now _) as [[m1 e1] k1] eqn:Hfl.
  apply flush_frame in Hfl. destruct Hfl as (Hb & _).
  unfold object_of. simpl. rewrite Hb. reflexivity.
Qed.

(** The buffer a [send] leaves: the one it found, or that with the
    stamped point set under its [uid]. *)
Lemma send_buffer now raw m :
  buffer (object_of (send stringify now raw m)) = buffer m
  \/ exists p,
       getPoint stringify now m raw = Some p
       /\ buffer (object_of (send stringify now raw m))
          = JsMap.set (uid p) p (buffer m).
Proof.
  destruct (options m) as [o|] eqn:Ho.
  - destruct (Z.ltb_spec (JsMap.size (buffer m)) (maxBuffer o)) as [Hroom|Hfull].
    + destruct (getPoint stringify now m raw) as [p|] eqn:Hp.
      * right. exists p. split; [reflexivity|].
        apply (send_accepted_buffer now raw m o p Ho Hroom Hp).
      * left. unfold send. rewrite Ho, Hp.
        destruct (JsMap.size (buffer m) >=? maxBuffer o); reflexivity.
    + left. unfold send. rewrite Ho.
      destruct (Z.geb_spec (JsMap.size (buffer m)) (maxBuffer o));
        [reflexivity|lia].
  - left. unfold send. rewrite Ho. reflexivity.
Qed.

Lemma housekeeping_buffer now m :
  buffer (object_of (housekeeping now m)) = evict now (buffer m) (buffer m).
Proof.
  unfold housekeeping.
  match goal with |- context [if ?c then _ else _] => destruct c end;
    [|reflexivity].
  destruct (flush now _) as [[m1 e1] k1] eqn:Hfl.
  apply flush_frame in Hfl. destruct Hfl as (Hb & _).
  unfold object_of. simpl. rewrite Hb. reflexivity.
Qed.

Lemma stop_buffer now m : buffer (object_of (stop now m)) = buffer m.
Proof.
  unfold stop. destruct (flush now m) as [[m1 e1] k1] eqn:Hfl.
  apply flush_frame in Hfl. destruct Hfl as (Hb & _).
  unfold object_of. simpl. destruct (timer m1); exact Hb.
Qed.

Lemma flush_resume_buffer now m fr r :
  buffer (object_of (flush_resume now m fr r))
  = if ok r then delete_batch (fr_batch fr) (buffer m) else buffer m.
Proof.
  destruct (flush_resume now m fr r) as [[m' effects] k] eqn:H.
  apply flush_resume_cases in H. unfold object_of, ok. simpl.
  destruct r as [status|].
  - destruct ((status >=? 200) && (status <? 300)).
    + destruct H as (Hb & _). exact Hb.
    + destruct H as (-> & _). reflexivity.
  - destruct H as (-> & _). reflexivity.
Qed.

Lemma same_settings_flush now m : same_settings m (object_of (flush now m)).
Proof.
  destruct (flush now m) as [[m1 e1] k1] eqn:Hfl.
  apply flush_frame in Hfl. destruct Hfl as (_ & Ho & Hf & _ & Ht).
  repeat split; assumption.
Qed.

Lemma same_settings_send now raw m :
  same_settings m (object_of (send stringify now raw m)).
Proof.
  unfold send. destruct (options m) as [o|] eqn:Ho;
    [|repeat split; simpl; congruence].
  destruct (JsMap.size (buffer m) >=? maxBuffer o); [repeat split|].
  destruct (getPoint stringify now m raw) as [p|]; [|repeat split].
  match goal with |- context [if ?c then _ else _] => destruct c end;
    [|repeat split].
  apply (same_settings_flush now
           (set_buffer (JsMap.set (uid p) p (buffer m)) m)).
Qed.

Lemma same_settings_housekeeping now m :
  same_settings m (object_of (housekeeping now m)).
Proof.
  unfold housekeeping.
  match goal with |- context [if ?c then _ else _] => destruct c end;
    [|repeat split].
  apply (same_settings_flush now
           (set_buffer (evict now (buffer m) (buffer m)) m)).
Qed.

Lemma same_settings_stop now m : same_settings m (object_of (stop now m)).
Proof.
  pose proof (same_settings_flush now m) as H.
  unfold stop. destruct (flush now m) as [[m1 e1] k1].
  unfold object_of in *. simpl in *. destruct (timer m1); exact H.
Qed.

Lemma same_settings_resume now m fr r :
  same_settings m (object_of (flush_resume now m fr r)).
Proof.
  destruct (flush_resume now m fr r) as [[m' effects] k] eqn:H.
  apply flush_resume_cases in H. unfold object_of. simpl.
  destruct r as [status|].
  - destruct ((status >=? 200) && (status <? 300)).
    + destruct H as (_ & H). destruct k as [fr'|].
      * destruct H as (-> & _). repeat split.
      * destruct H as (-> & _). repeat split.
    + destruct H as (-> & _). repeat split.
  - destruct H as (-> & _). repeat split.
Qed.

End Segments.

(** ** The object from event to event *)
Section Steps.
Context {Payload : Type}.
Variable stringify : Payload -> Z -> Z -> option (list Z).
Implicit Types (m : MongoDb Payload) (s : System Payload).

Lemma obj_after s frames (out : Outcome Payload) :
  obj (after s frames out) = object_of out.
Proof. destruct out as [[m e] k]. reflexivity. Qed.

(** What one event can do to the buffer. *)
Lemma step_buffer s (ev : Event Payload) :
  let b := buffer (obj s) in
  let b' := buffer (obj (step stringify s ev)) in
  b' = b
  \/ (exists now raw p,
        getPoint stringify now (obj s) raw = Some p
        /\ b' = JsMap.set (uid p) p b)
  \/ (exists now, b' = evict now b b)
  \/ (exists batch, b' = delete_batch batch b).
Proof.
  destruct ev as [now raw|now|now i r|now]; simpl.
  - rewrite obj_after.
    destruct (send_buffer stringify now raw (obj s)) as [->|(p & Hp & ->)];
      [left; reflexivity|].
    right. left. exists now, raw, p. split; [exact Hp|reflexivity].
  - destruct (timer (obj s)); [|left; reflexivity].
    rewrite obj_after, housekeeping_buffer.
    right. right. left. exists now. reflexivity.
  - destruct (nth_error (inflight s) i) as [fr|]; [|left; reflexivity].
    rewrite obj_after, flush_resume_buffer.
    destruct (ok r); [|left; reflexivity].
    right. right. right. exists (fr_batch fr). reflexivity.
  - rewrite obj_after, stop_buffer. left. reflexivity.
Qed.

Lemma step_same_settings s (ev : Event Payload) :
  same_settings (obj s) (obj (step stringify s ev)).
Proof.
  destruct ev as [now raw|now|now i r|now]; simpl.
  - rewrite obj_after. apply same_settings_send.
  - destruct (timer (obj s)); [|repeat split].
    rewrite obj_after. apply same_settings_housekeeping.
  - destruct (nth_error (inflight s) i) as [fr|]; [|repeat split].
    rewrite obj_after. apply same_settings_resume.
  - rewrite obj_after. apply same_settings_stop.
Qed.

(** Every entry of the buffer after an event was there before it, or is
    the point that a [send] has just stamped, under its [uid]. *)
Lemma step_entries s (ev : Event Payload) (e : Z * Point Payload) :
  In e (JsMap.entries (buffer (obj (step stringify s ev)))) ->
  In e (JsMap.entries (buffer (obj s)))
  \/ exists now raw,
       getPoint stringify now (obj s) raw = Some (snd e)
       /\ fst e = uid (snd e).
Proof.
  destruct (step_buffer s ev)
    as [->|[(now & raw & p & Hp & ->)|[(now & ->)|(batch & ->)]]].
  - auto.
  - intros Hin. apply in_entries_set in Hin. destruct Hin as [Hin| ->]; auto.
    right. exists now, raw. split; [exact Hp|reflexivity].
  - rewrite entries_evict_gen. intros Hin. apply filter_In in Hin.
    left. tauto.
  - rewrite entries_delete_batch. intros Hin. apply filter_In in Hin.
    left. tauto.
Qed.

Lemma run_snoc s (events : list (Event Payload)) (ev : Event Payload) :
  run stringify s (events ++ [ev]) = step stringify (run stringify s events) ev.
Proof. unfold run. rewrite fold_left_app. reflexivity. Qed.

End Steps.

(** X2.  In every state the running plugin reaches, each key of the buffer
    is the [uid] of the point filed under it, and that [uid] is the hash of
    what [JSON.stringify] made of the point's fields, time and expiry when
    it was stamped: keys and points never drift apart, whatever is sent,
    evicted or delivered. *)
Theorem buffer_keys_are_fingerprints :
  forall (Payload : Type) (stringify : Payload -> Z -> Z -> option (list Z))
         (opts : Options) (now0 : Z) (events : list (Event Payload)),
    let b := buffer (obj (run stringify (boot now0 opts) events)) in
    fingerprinted stringify b
    /\ Forall (fun e => fst e = uid (snd e)) (JsMap.entries b).
Proof.
  intros Payload stringify opts now0 events.
  induction events as [|ev events IH] using rev_ind.
  - unfold boot, start. simpl.
    destruct (ttlSecs opts), (flushSecs opts) as [f|];
      try destruct (f >? 0); split; constructor.
  - rewrite run_snoc. cbv zeta in *. destruct IH as [IHf IHu].
    unfold fingerprinted in *. rewrite Forall_forall in IHf, IHu.
    split; apply Forall_forall; intros e He;
      apply step_entries in He;
      destruct He as [He|(now & raw & Hp & Hk)]; auto.
    apply getPoint_fields in Hp. destruct Hp as (_ & _ & _ & json & Hj & Hu).
    exists json. split; [exact Hj|congruence].
Qed.

(** X3.  What [start] derives from the options stays as it is through
    everything that follows: in every state the running plugin reaches the
    options are those it was started with, the time-to-live is [ttlSecs]
    seconds (60000 ms when [ttlSecs] is missing) and the flush interval is
    [flushSecs] seconds when that is positive, 0 otherwise. *)
Theorem settings_are_stable :
  forall (Payload : Type) (stringify : Payload -> Z -> Z -> option (list Z))
         (opts : Options) (now0 : Z) (events : list (Event Payload)),
    let m := obj (run stringify (boot now0 opts) events) in
    options m = Some opts
    /\ ttlMillis m = started_ttlMillis opts
    /\ flushMillis m = started_flushMillis opts.
Proof.
  intros Payload stringify opts now0 events.
  induction events as [|ev events IH] using rev_ind.
  - unfold boot, start, started_ttlMillis, started_flushMillis. simpl.
    destruct (ttlSecs opts), (flushSecs opts) as [f|];
      try destruct (f >? 0); repeat split.
  - rewrite run_snoc. cbv zeta in *. destruct IH as (Ho & Ht & Hf).
    destruct (step_same_settings stringify
                (run stringify (boot now0 opts) events) ev)
      as (Ho' & Hf' & Ht').
    repeat split; congruence.
Qed.

(** ** When a flush has something to send *)
Section FlushDue.
Context {Payload : Type}.
Implicit Types (m : MongoDb Payload).

Lemma flush_planned now m o :
  options m = Some o -> batchSize o <> 0 -> flushing m = false ->
  flush now m
  = flush_loop now (set_flushing true m)
      (JsNum.Fin (JsMap.size (buffer m) / batchSize o
                  + (if now >? flushExpiry m then 1 else 0)))
      (JsMap.Iter 0).
Proof.
  intros Ho Hb Hf. unfold flush. rewrite Hf.
  change (options (set_flushing true m)) with (options m). rewrite Ho.
  change (flushExpiry (set_flushing true m)) with (flushExpiry m).
  change (buffer (set_flushing true m)) with (buffer m).
  unfold JsNum.floor_div.
  destruct (Z.eqb_spec (batchSize o) 0) as [|_]; [contradiction|].
  destruct (now >? flushExpiry m); simpl; rewrite ?Z.add_0_r; reflexivity.
Qed.

Lemma planned_zero m o now :
  0 < batchSize o ->
  JsMap.size (buffer m) / batchSize o
  + (if now >? flushExpiry m then 1 else 0) = 0
  <-> JsMap.size (buffer m) < batchSize o /\ now <= flushExpiry m.
Proof.
  intros Hb.
  pose proof (JsMapFacts.size_nonneg (buffer m)) as Hn.
  pose proof (Z.div_pos _ _ Hn Hb) as Hq.
  destruct (Z.gtb_spec now (flushExpiry m)).
  - split; [lia|intros [_ H']; lia].
  - rewrite Z.add_0_r. split.
    + intros H0. split; [|lia].
      destruct (Z.lt_ge_cases (JsMap.size (buffer m)) (batchSize o));
        [assumption|].
      pose proof (Z.div_le_mono _ _ _ Hb H1) as Hd.
      rewrite Z.div_same in Hd by lia. lia.
    + intros [Hs _]. apply Z.div_small. lia.
Qed.

(** A flush that may proceed sends nothing exactly when fewer than
    [batchSize] points are buffered and [flushExpiry] has not passed; it
    then ends at once, the buffer untouched. *)
Lemma flush_sends_iff now m o :
  options m = Some o -> 0 < batchSize o -> flushing m = false ->
  (requests (effects_of (flush now m)) = []
   <-> JsMap.size (buffer m) < batchSize o /\ now <= flushExpiry m)
  /\ (requests (effects_of (flush now m)) = [] ->
      suspended_of (flush now m) = None).
Proof.
  intros Ho Hb Hf.
  rewrite (flush_planned now m o Ho ltac:(lia) Hf).
  rewrite <- (planned_zero m o now Hb).
  set (planned := JsMap.size (buffer m) / batchSize o
                  + (if now >? flushExpiry m then 1 else 0)).
  unfold flush_loop. simpl JsNum.truthy.
  change (options (set_flushing true m)) with (options m). rewrite Ho.
  destruct (Z.eqb_spec planned 0) as [Hz|Hz]; simpl.
  - split; [split; auto|reflexivity].
  - destruct (fill_from (buffer m) 0 (batchSize o)) as [batch it].
    simpl. split; [split; [discriminate|contradiction]|discriminate].
Qed.

Lemma flush_at_most_one now m :
  (length (requests (effects_of (flush now m))) <= 1)%nat.
Proof.
  destruct (flush now m) as [[m' effects] k] eqn:H.
  unfold effects_of. simpl. destruct (flushing m) eqn:Hf.
  - rewrite (flush_busy now m Hf) in H. inversion H; subst. simpl. lia.
  - apply (flush_cases now m m' effects k Hf) in H. destruct k as [fr|].
    + destruct H as (_ & o' & _ & ->). simpl. lia.
    + destruct H as (_ & ->). simpl. lia.
Qed.

End FlushDue.

(** X4.  A [send] that finds room and can stamp its point files it under
    its [uid]: looking that key up gives the point, every other key holds
    what it held, and when the key is new the point goes to the end of the
    buffer, which grows by one. *)
Theorem send_then_get :
  forall (Payload : Type) (stringify : Payload -> Z -> Z -> option (list Z))
         (m : MongoDb Payload) (o : Options) (now : Z) (raw : Raw Payload)
         (p : Point Payload),
    options m = Some o ->
    JsMap.size (buffer m) < maxBuffer o ->
    getPoint stringify now m raw = Some p ->
    let m' := object_of (send stringify now raw m) in
    JsMap.get (uid p) (buffer m') = Some p
    /\ (forall k, k <> uid p ->
                  JsMap.get k (buffer m') = JsMap.get k (buffer m))
    /\ (JsMap.has (uid p) (buffer m) = false ->
        points (buffer m') = points (buffer m) ++ [p]
        /\ JsMap.size (buffer m') = JsMap.size (buffer m) + 1).
Proof.
  intros Payload stringify m o now raw p Ho Hroom Hp m'. subst m'.
  rewrite (send_accepted_buffer stringify now raw m o p Ho Hroom Hp).
  split; [apply JsMapFacts.get_set_same|]. split.
  - intros k Hk. apply get_set_other. exact Hk.
  - intros Hnew. split.
    + unfold points. rewrite JsMapFacts.entries_set_absent by exact Hnew.
      rewrite map_app. reflexivity.
    + apply JsMapFacts.size_set_absent. exact Hnew.
Qed.

Lemma send_then_get_witness :
  let m := obj (@boot string 0 Demo.opts) in
  let m' := object_of (send Demo.stringify 1 (Demo.raw 1) m) in
  (options m = Some Demo.opts /\ JsMap.size (buffer m) < maxBuffer Demo.opts)
  /\ match getPoint Demo.stringify 1 m (Demo.raw 1) with
     | Some p =>
         JsMap.get (uid p) (buffer m') = Some p
         /\ points (buffer m') = points (buffer m) ++ [p]
     | None => False
     end.
Proof.
  cbv zeta. split; [split; reflexivity|].
  destruct (getPoint Demo.stringify 1 (obj (@boot string 0 Demo.opts))
                     (Demo.raw 1)) as [p|] eqn:Hp;
    [|vm_compute in Hp; discriminate].
  destruct (send_then_get string Demo.stringify (obj (@boot string 0 Demo.opts))
              Demo.opts 1 (Demo.raw 1) p eq_refl eq_refl Hp)
    as (Hget & _ & Hnew).
  split; [exact Hget|]. apply Hnew. reflexivity.
Defined.

(** X5.  A [send] that buffers its point issues at most one request, and
    none while a flush is in progress.  Otherwise it sends nothing exactly
    when, the point counted, fewer than [batchSize] points are buffered and
    [flushExpiry] has not passed. *)
Theorem send_flushes_when_due :
  forall (Payload : Type) (stringify : Payload -> Z -> Z -> option (list Z))
         (m : MongoDb Payload) (o : Options) (now : Z) (raw : Raw Payload)
         (p : Point Payload),
    options m = Some o ->
    0 < batchSize o ->
    JsMap.size (buffer m) < maxBuffer o ->
    getPoint stringify now m raw = Some p ->
    let out := send stringify now raw m in
    (length (requests (effects_of out)) <= 1)%nat
    /\ (flushing m = true -> requests (effects_of out) = [])
    /\ (flushing m = false ->
        (requests (effects_of out) = []
         <-> JsMap.size (buffer (object_of out)) < batchSize o
             /\ now <= flushExpiry m)).
Proof.
  intros Payload stringify m o now raw p Ho Hb Hroom Hp out. subst out.
  rewrite (send_accepted_buffer stringify now raw m o p Ho Hroom Hp).
  rewrite (send_accepted stringify now raw m o p Ho Hroom Hp). cbv zeta.
  set (m1 := set_buffer (JsMap.set (uid p) p (buffer m)) m).
  change (JsMap.set (uid p) p (buffer m)) with (buffer m1).
  change (flushExpiry m) with (flushExpiry m1).
  assert (options m1 = Some o) as Ho1 by exact Ho.
  destruct ((JsMap.size (buffer m1) >=? batchSize o) || (now >? flushExpiry m1))
    eqn:Hdue.
  - split; [apply flush_at_most_one|]. split.
    + intros Hf. rewrite (flush_busy now m1 Hf). reflexivity.
    + intros Hf. exact (proj1 (flush_sends_iff now m1 o Ho1 Hb Hf)).
  - apply orb_false_iff in Hdue. destruct Hdue as [Hlow Hearly].
    rewrite Z.geb_leb in Hlow. apply Z.leb_gt in Hlow.
    rewrite Z.gtb_ltb in Hearly. apply Z.ltb_ge in Hearly.
    simpl. split; [lia|]. split; [reflexivity|]. intros _.
    split; [intros _; split; assumption|reflexivity].
Qed.

Lemma send_flushes_when_due_witness :
  let m := obj (@boot string 0 Demo.opts) in
  let out := send Demo.stringify 1 (Demo.raw 1) m in
  (options m = Some Demo.opts /\ 0 < batchSize Demo.opts
   /\ JsMap.size (buffer m) < maxBuffer Demo.opts /\ flushing m = false)
  /\ (requests (effects_of out) = []
      <-> JsMap.size (buffer (object_of out)) < 10 /\ 1 <= flushExpiry m).
Proof.
  cbv zeta. split; [repeat split; reflexivity|].
  destruct (getPoint Demo.stringify 1 (obj (@boot string 0 Demo.opts))
                     (Demo.raw 1)) as [p|] eqn:Hp;
    [|vm_compute in Hp; discriminate].
  exact (proj2 (proj2 (send_flushes_when_due string Demo.stringify
                         (obj (@boot string 0 Demo.opts)) Demo.opts 1
                         (Demo.raw 1) p eq_refl eq_refl eq_refl Hp))
               eq_refl).
Defined.

(** X6.  Housekeeping ticks compose: after a tick at [t1] and another at
    [t2] the buffer holds, in their order, exactly the points that expire
    no earlier than the later of the two; a second tick that is not later
    than the first removes nothing. *)
Theorem housekeeping_composes :
  forall (Payload : Type) (m : MongoDb Payload) (t1 t2 : Z),
    well_keyed (buffer m) ->
    let m1 := object_of (housekeeping t1 m) in
    let m2 := object_of (housekeeping t2 m1) in
    JsMap.entries (buffer m2)
    = filter (fun e => Z.max t1 t2 <=? expiry (snd e))
             (JsMap.entries (buffer m))
    /\ (t2 <= t1 -> JsMap.entries (buffer m2) = JsMap.entries (buffer m1)).
Proof.
  intros Payload m t1 t2 Hk m1 m2.
  assert (JsMap.entries (buffer m1)
          = filter (fun e => negb (expired t1 e)) (JsMap.entries (buffer m)))
    as H1.
  { subst m1. rewrite housekeeping_buffer. apply entries_evict. apply Hk. }
  assert (JsMap.entries (buffer m2)
          = filter (fun e => negb (expired t2 e)) (JsMap.entries (buffer m1)))
    as H2.
  { subst m2. rewrite housekeeping_buffer. apply entries_evict.
    subst m1. rewrite housekeeping_buffer.
    apply (well_keyed_evict t1 (buffer m) Hk). }
  split.
  - rewrite H2, H1, filter_twice. apply filter_ext. intros e.
    unfold expired.
    destruct (Z.gtb_spec t1 (expiry (snd e))),
             (Z.gtb_spec t2 (expiry (snd e))),
             (Z.leb_spec (Z.max t1 t2) (expiry (snd e)));
      simpl; try reflexivity; lia.
  - intros Hle. rewrite H2. apply filter_all. intros e He.
    rewrite H1 in He. apply filter_In in He. destruct He as [_ He].
    unfold expired in *.
    destruct (Z.gtb_spec t1 (expiry (snd e))); [discriminate|].
    destruct (Z.gtb_spec t2 (expiry (snd e))); [lia|reflexivity].
Qed.

Lemma housekeeping_composes_witness :
  let m := obj (run Demo.stringify (boot 0 Demo.opts) (Demo.sends 1 3)) in
  let m1 := object_of (housekeeping 180002 m) in
  let m2 := object_of (housekeeping 180003 m1) in
  well_keyed (buffer m)
  /\ JsMap.entries (buffer m2)
     = filter (fun e => Z.max 180002 180003 <=? expiry (snd e))
              (JsMap.entries (buffer m))
  /\ map (@expiry string) (points (buffer m2)) = [180003].
Proof.
  intros m m1 m2.
  assert (well_keyed (buffer m)) as Hk.
  { exact (proj1 (proj2 (invariant_run Demo.stringify Demo.opts _
                           (boot 0 Demo.opts) (invariant_boot Demo.opts 0)))). }
  split; [exact Hk|]. split; [|reflexivity].
  exact (proj1 (housekeeping_composes string m 180002 180003 Hk)).
Defined.

(** X7.  A point that [send] has buffered at time [now] expires at
    [now + ttlMillis]: a housekeeping tick at any time up to then leaves it
    under its key, and a tick at any later time removes it. *)
Theorem point_lives_for_ttl :
  forall (Payload : Type) (stringify : Payload -> Z -> Z -> option (list Z))
         (m : MongoDb Payload) (o : Options) (now now' : Z)
         (raw : Raw Payload) (p : Point Payload),
    options m = Some o ->
    JsMap.size (buffer m) < maxBuffer o ->
    well_keyed (buffer m) ->
    getPoint stringify now m raw = Some p ->
    let m1 := object_of (send stringify now raw m) in
    let m2 := object_of (housekeeping now' m1) in
    expiry p = now + ttlMillis m
    /\ (now' <= now + ttlMillis m -> JsMap.get (uid p) (buffer m2) = Some p)
    /\ (now + ttlMillis m < now' -> JsMap.get (uid p) (buffer m2) = None).
Proof.
  intros Payload stringify m o now now' raw p Ho Hroom Hk Hp m1 m2.
  destruct (getPoint_fields stringify now m raw p Hp) as (_ & _ & He & _).
  assert (buffer m1 = JsMap.set (uid p) p (buffer m)) as Hb1
    by (apply (send_accepted_buffer stringify now raw m o p Ho Hroom Hp)).
  assert (well_keyed (buffer m1)) as Hk1
    by (rewrite Hb1; apply well_keyed_set; exact Hk).
  assert (In (uid p, p) (JsMap.entries (buffer m1))) as Hin1.
  { apply get_some_in. rewrite Hb1. apply JsMapFacts.get_set_same. }
  assert (JsMap.entries (buffer m2)
          = filter (fun e => negb (expired now' e)) (JsMap.entries (buffer m1)))
    as H2.
  { subst m2. rewrite housekeeping_buffer. apply entries_evict. apply Hk1. }
  assert (well_keyed (buffer m2)) as Hk2.
  { subst m2. rewrite housekeeping_buffer. apply well_keyed_evict. exact Hk1. }
  split; [exact He|]. split.
  - intros Hlive. apply in_get_some; [apply Hk2|].
    rewrite H2. apply filter_In. split; [exact Hin1|].
    unfold expired. simpl.
    destruct (Z.gtb_spec now' (expiry p)); [lia|reflexivity].
  - intros Hdead. apply get_none_not_in. intros v Hv.
    rewrite H2 in Hv. apply filter_In in Hv. destruct Hv as [Hv Hx].
    assert ((uid p, v) = (uid p, p)) as Heq
      by (apply (NoDup_fst_inj _ _ _ (proj1 Hk1) Hv Hin1); reflexivity).
    inversion Heq; subst v. unfold expired in Hx. simpl in Hx.
    destruct (Z.gtb_spec now' (expiry p)); [discriminate|lia].
Qed.

Lemma point_lives_for_ttl_witness :
  let m := obj (@boot string 0 Demo.opts) in
  let m1 := object_of (send Demo.stringify 1 (Demo.raw 1) m) in
  (options m = Some Demo.opts /\ JsMap.size (buffer m) < maxBuffer Demo.opts
   /\ well_keyed (buffer m) /\ ttlMillis m = 180000)
  /\ match getPoint Demo.stringify 1 m (Demo.raw 1) with
     | Some p =>
         JsMap.get (uid p) (buffer (object_of (housekeeping 180001 m1)))
         = Some p
         /\ JsMap.get (uid p) (buffer (object_of (housekeeping 180002 m1)))
            = None
     | None => False
     end.
Proof.
  cbv zeta.
  assert (well_keyed (buffer (obj (@boot string 0 Demo.opts)))) as Hk
    by apply well_keyed_empty.
  split; [repeat split; try reflexivity; apply Hk|].
  destruct (getPoint Demo.stringify 1 (obj (@boot string 0 Demo.opts))
                     (Demo.raw 1)) as [p|] eqn:Hp;
    [|vm_compute in Hp; discriminate].
  split.
  - apply (point_lives_for_ttl string Demo.stringify
             (obj (@boot string 0 Demo.opts)) Demo.opts 1 180001
             (Demo.raw 1) p eq_refl eq_refl Hk Hp).
    vm_compute. discriminate.
  - apply (point_lives_for_ttl string Demo.stringify
             (obj (@boot string 0 Demo.opts)) Demo.opts 1 180002
             (Demo.raw 1) p eq_refl eq_refl Hk Hp).
    reflexivity.
Defined.

(** ** Stopping *)
Section Stopping.
Context {Payload : Type}.
Variable stringify : Payload -> Z -> Z -> option (list Z).
Implicit Types (m : MongoDb Payload) (s : System Payload).

Lemma stop_timer now m : timer (object_of (stop now m)) = false.
Proof.
  unfold stop. destruct (flush now m) as [[m1 e1] k1].
  unfold object_of. simpl. destruct (timer m1) eqn:Ht; [reflexivity|exact Ht].
Qed.

Lemma flush_timer now m : timer (object_of (flush now m)) = timer m.
Proof.
  destruct (flush now m) as [[m1 e1] k1] eqn:Hfl.
  apply flush_frame in Hfl. unfold object_of. simpl. tauto.
Qed.

Lemma flush_resume_timer now m fr r :
  timer (object_of (flush_resume now m fr r)) = timer m.
Proof.
  destruct (flush_resume now m fr r) as [[m' effects] k] eqn:H.
  apply flush_resume_cases in H. unfold object_of. simpl.
  destruct r as [status|].
  - destruct ((status >=? 200) && (status <? 300)).
    + destruct H as (_ & H). destruct k as [fr'|];
        destruct H as (-> & _); reflexivity.
    + destruct H as (-> & _). reflexivity.
  - destruct H as (-> & _). reflexivity.
Qed.

Lemma send_timer now raw m :
  timer (object_of (send stringify now raw m)) = timer m.
Proof.
  unfold send. destruct (options m) as [o|]; [|reflexivity].
  destruct (JsMap.size (buffer m) >=? maxBuffer o); [reflexivity|].
  destruct (getPoint stringify now m raw) as [p|]; [|reflexivity].
  match goal with |- context [if ?c then _ else _] => destruct c end;
    [|reflexivity].
  apply (flush_timer now (set_buffer (JsMap.set (uid p) p (buffer m)) m)).
Qed.

Lemma timer_stays_off s (ev : Event Payload) :
  timer (obj s) = false -> timer (obj (step stringify s ev)) = false.
Proof.
  intros Hoff. destruct ev as [now raw|now|now i r|now]; simpl.
  - rewrite obj_after, send_timer. exact Hoff.
  - rewrite Hoff. exact Hoff.
  - destruct (nth_error (inflight s) i) as [fr|]; [|exact Hoff].
    rewrite obj_after, flush_resume_timer. exact Hoff.
  - rewrite obj_after. apply stop_timer.
Qed.

Lemma timer_stays_off_run (events : list (Event Payload)) s :
  timer (obj s) = false -> timer (obj (run stringify s events)) = false.
Proof.
  revert s. induction events as [|ev events IH]; intros s H; simpl;
    [exact H|].
  apply IH. apply timer_stays_off. exact H.
Qed.

End Stopping.

(** X8.  [stop] drains whole batches only.  Called with no flush in
    progress, fewer than [batchSize] points buffered and [flushExpiry] not
    passed, it sends nothing and suspends nothing: the points are left in
    the buffer, and the housekeeping timer is cleared. *)
Theorem stop_keeps_the_remainder :
  forall (Payload : Type) (m : MongoDb Payload) (o : Options) (now : Z),
    options m = Some o ->
    0 < batchSize o ->
    flushing m = false ->
    JsMap.size (buffer m) < batchSize o ->
    now <= flushExpiry m ->
    let out := stop now m in
    requests (effects_of out) = []
    /\ suspended_of out = None
    /\ buffer (object_of out) = buffer m
    /\ timer (object_of out) = false.
Proof.
  intros Payload m o now Ho Hb Hf Hlow Hearly out. subst out.
  destruct (flush_sends_iff now m o Ho Hb Hf) as [Hiff Hnone].
  assert (requests (effects_of (flush now m)) = []) as Hreq
    by (apply Hiff; split; assumption).
  specialize (Hnone Hreq).
  split; [|split; [|split; [apply stop_buffer|apply stop_timer]]].
  - unfold stop. destruct (flush now m) as [[m1 e1] k1]. exact Hreq.
  - unfold stop. destruct (flush now m) as [[m1 e1] k1]. exact Hnone.
Qed.

Lemma stop_keeps_the_remainder_witness :
  let m := obj (run Demo.stringify (boot 0 Demo.opts) (Demo.sends 1 3)) in
  let out := stop 4 m in
  (options m = Some Demo.opts /\ 0 < batchSize Demo.opts
   /\ flushing m = false /\ JsMap.size (buffer m) = 3 /\ 4 <= flushExpiry m)
  /\ requests (effects_of out) = []
  /\ suspended_of out = None
  /\ buffer (object_of out) = buffer m
  /\ timer (object_of out) = false.
Proof.
  intros m out.
  split; [repeat split; try reflexivity; vm_compute; discriminate|].
  apply (stop_keeps_the_remainder string m Demo.opts 4);
    try reflexivity; vm_compute; discriminate.
Defined.

(** X9.  Once stopped, the housekeeping never runs again: whatever comes
    after a [stop] (points, responses, another stop), the timer stays
    cleared and a tick changes nothing, so that points buffered from then
    on are never evicted. *)
Theorem no_housekeeping_after_stop :
  forall (Payload : Type) (stringify : Payload -> Z -> Z -> option (list Z))
         (s : System Payload) (t t' : Z) (events : list (Event Payload)),
    let s' := run stringify (step stringify s (ev_stop t)) events in
    timer (obj s') = false
    /\ step stringify s' (ev_tick t') = s'.
Proof.
  intros Payload stringify s t t' events s'.
  assert (timer (obj s') = false) as Hoff.
  { subst s'. apply timer_stays_off_run. simpl.
    rewrite obj_after. apply stop_timer. }
  split; [exact Hoff|]. simpl. rewrite Hoff. reflexivity.
Qed.

(** ** How a flush ends *)
Section FlushEnds.
Context {Payload : Type}.
Implicit Types (m : MongoDb Payload) (fr : FlushFrame Payload)
               (it : JsMap.iterator).

Lemma flush_resume_failed now m fr r :
  ok r = false ->
  exists effects,
    flush_resume now m fr r = (finally now m, effects, None)
    /\ requests effects = [].
Proof.
  intros Hr. destruct (flush_resume now m fr r) as [[m' effects] k] eqn:H.
  apply flush_resume_cases in H. unfold ok in Hr. exists effects.
  destruct r as [status|].
  - rewrite Hr in H. destruct H as (-> & -> & He). split; [reflexivity|exact He].
  - destruct H as (-> & -> & He). split; [reflexivity|exact He].
Qed.

(** [q] batches planned: whatever the answers, the flush is over after at
    most [q] of them, has sent at most [q] requests, and has reset the
    flag. *)
Lemma flush_loop_ends (o : Options) :
  forall (q : nat) rs now m it eff0 m1 eff1 k1,
    options m = Some o ->
    (q <= length rs)%nat ->
    Forall (@undisturbed Payload) rs ->
    flush_loop now m (JsNum.Fin (Z.of_nat q)) it = (m1, eff1, k1) ->
    let out := settle_amid rs (m1, eff0 ++ eff1, k1) in
    suspended_of out = None
    /\ (length (requests (effects_of out)) <= length (requests eff0) + q)%nat
    /\ flushing (object_of out) = false.
Proof.
  induction q as [|q IH];
    intros rs now m it eff0 m1 eff1 k1 Ho Hlen Hund H out; subst out.
  - unfold flush_loop in H. simpl in H. inversion H; subst.
    rewrite settle_amid_done. unfold effects_of, suspended_of, object_of.
    simpl. rewrite !app_nil_r. split; [reflexivity|]. split; [lia|reflexivity].
  - destruct rs as [|[[g t] r] rs]; [simpl in Hlen; lia|].
    inversion Hund as [|? ? Hg Hund']; subst. unfold undisturbed in Hg.
    simpl in Hg.
    remember (Z.of_nat (S q)) as z eqn:Hz.
    unfold flush_loop in H.
    replace (JsNum.truthy (JsNum.Fin z)) with true in H
      by (simpl; destruct (Z.eqb_spec z 0); [lia|reflexivity]).
    rewrite Ho in H.
    destruct (fill (buffer m) it (batchSize o)) as [batch it'] eqn:Hfill.
    injection H as Hm1 He1 Hk1. subst m1 eff1 k1.
    rewrite settle_amid_cons.
    destruct (ok r) eqn:Hr.
    + destruct r as [status|]; [|discriminate]. simpl in Hr.
      rewrite flush_resume_ok by exact Hr.
      unfold fr_batch, fr_batches, fr_iterator.
      try change (JsNum.pred (JsNum.Fin z)) with (JsNum.Fin (z - 1)).
      replace (z - 1) with (Z.of_nat q) by lia.
      destruct (flush_loop t
                  (set_buffer (delete_batch batch (buffer (g m))) (g m))
                  (JsNum.Fin (Z.of_nat q)) it') as [[m2 e2] k2] eqn:Hl.
      cbv beta iota.
      match goal with
      | |- context [settle_amid rs (m2, ?e ++ ?d :: e2, k2)] =>
          replace (e ++ d :: e2)
            with ((eff0 ++ [http (request o batch); d]) ++ e2)
            by (rewrite <- !app_assoc; reflexivity)
      end.
      destruct (IH rs t (set_buffer (delete_batch batch (buffer (g m))) (g m))
                  it'
                  (eff0 ++ [http (request o batch);
                    app_log (debug_sent (JsNum.Fin (Z.of_nat q)) (length batch)
                                        (JsMap.size (buffer (g m))) status)])
                  m2 e2 k2 ltac:(simpl; rewrite Hg; exact Ho)
                  ltac:(simpl in Hlen; lia) Hund' Hl) as (Hs & Hcount & Hflag).
      split; [exact Hs|]. split; [|exact Hflag].
      rewrite requests_app in Hcount. simpl in Hcount.
      rewrite length_app in Hcount. simpl in Hcount. lia.
    + match goal with
      | |- context [flush_resume t (g m) ?fr r] =>
          destruct (flush_resume_failed t (g m) fr r Hr)
            as (effs & -> & Hnone)
      end.
      rewrite settle_amid_done. unfold effects_of, suspended_of, object_of.
      simpl. split; [reflexivity|]. split; [|reflexivity].
      rewrite !requests_app, !length_app, Hnone. simpl. lia.
Qed.

(** With [batchSize] 0 the inner loop takes no point and leaves the
    iterator where it was. *)
Lemma fill_zero (b : JsMap.t (Point Payload)) it :
  fill b it 0 = ([], it).
Proof.
  destruct it as [i|]; [|reflexivity].
  unfold fill. destruct (skipn i b); reflexivity.
Qed.

Lemma flush_loop_forever now m (o : Options) it :
  options m = Some o -> batchSize o = 0 ->
  flush_loop now m JsNum.Inf it
  = (m, [http (request o [])],
     Some {| fr_batches := JsNum.Inf; fr_iterator := it; fr_batch := [] |}).
Proof.
  intros Ho Hb. unfold flush_loop. simpl. rewrite Ho, Hb, fill_zero.
  reflexivity.
Qed.

Lemma settle_forever (o : Options) :
  batchSize o = 0 ->
  forall rs m it effects,
    options m = Some o ->
    Forall (fun tr : Z * superagent.Response => ok (snd tr) = true) rs ->
    let out := settle rs (m, effects,
                          Some {| fr_batches := JsNum.Inf; fr_iterator := it;
                                  fr_batch := [] |}) in
    suspended_of out <> None
    /\ batches_sent (effects_of out)
       = batches_sent effects ++ repeat [] (length rs)
    /\ buffer (object_of out) = buffer m.
Proof.
  intros Hb. induction rs as [|[t r] rs IH]; intros m it effects Ho Hok out;
    subst out.
  - simpl. unfold effects_of, suspended_of, object_of. simpl.
    rewrite app_nil_r. split; [discriminate|]. split; reflexivity.
  - inversion Hok as [|? ? Hr Hok']; subst. simpl in Hr.
    destruct r as [status|]; [|discriminate]. simpl in Hr.
    rewrite settle_cons, flush_resume_ok by exact Hr.
    unfold fr_batch, fr_batches, fr_iterator.
    change (delete_batch [] (buffer m)) with (buffer m).
    rewrite (flush_loop_forever t (set_buffer (buffer m) m) o it Ho Hb).
    cbv beta iota.
    destruct (IH (set_buffer (buffer m) m) it
                (effects ++ [app_log (debug_sent JsNum.Inf (@length (Point Payload) [])
                                        (JsMap.size (buffer m)) status);
                             http (request o [])]) Ho Hok')
      as (Hs & Hsent & Hbuf).
    split; [exact Hs|]. split; [|exact Hbuf].
    rewrite Hsent, batches_sent_app. simpl.
    rewrite <- app_assoc. reflexivity.
Qed.

(** Every point of a batch is a live entry of the buffer the batch is
    taken from. *)
Lemma fill_from_incl (rest : list (JsMap.slot (Point Payload))) :
  forall (i : nat) (c : Z) (p : Point Payload),
    In p (fst (fill_from rest i c)) -> In p (map snd (JsMap.entries rest)).
Proof.
  induction rest as [|[[k v]|] rest IH]; intros i c p; simpl.
  - destruct (c =? 0); intros [].
  - destruct (c =? 0); [intros []|].
    destruct (fill_from rest (S i) (c - 1)) as [batch it] eqn:Hf. simpl.
    intros [->|Hin]; [left; reflexivity|].
    right. apply (IH (S i) (c - 1)). rewrite Hf. exact Hin.
  - destruct (c =? 0); [intros []|]. apply IH.
Qed.

Lemma fill_incl (b : JsMap.t (Point Payload)) it (c : Z) (p : Point Payload) :
  In p (fst (fill b it c)) -> In p (points b).
Proof.
  destruct it as [i|]; simpl; [|intros []].
  intros Hin. apply fill_from_incl in Hin.
  unfold points. rewrite <- (firstn_skipn i b), JsMapFacts.entries_app, map_app.
  apply in_or_app. right. exact Hin.
Qed.

Lemma flush_loop_incl now m batches it (batch : list (Point Payload)) :
  In batch (batches_sent (effects_of (flush_loop now m batches it))) ->
  incl batch (points (buffer m))
  /\ buffer (object_of (flush_loop now m batches it)) = buffer m.
Proof.
  destruct (flush_loop now m batches it) as [[m' effects] k] eqn:H.
  apply flush_loop_cases in H. unfold effects_of, object_of. simpl.
  destruct k as [fr|].
  - destruct H as (-> & _ & _ & o & _ & -> & Hfill). simpl.
    intros [<-|[]]. split; [|reflexivity].
    intros p Hp. apply (fill_incl (buffer m) it (batchSize o)).
    rewrite Hfill. exact Hp.
  - destruct H as (-> & Hnone). unfold batches_sent. rewrite Hnone.
    intros [].
Qed.

End FlushEnds.

(** X10.  With a positive [batchSize] a flush always ends: whatever the
    answers to its requests (delivered, refused or rejected) and whatever
    is sent or evicted meanwhile, it is over after at most
    [floor(n / batchSize)] answers, one more when [flushExpiry] had passed,
    has sent no more requests than that, and has reset [flushing], so that
    the next flush can proceed. *)
Theorem flush_always_ends :
  forall (Payload : Type) (m : MongoDb Payload) (o : Options) (now : Z)
         (rs : list ((MongoDb Payload -> MongoDb Payload) * Z
                     * superagent.Response)),
    options m = Some o ->
    0 < batchSize o ->
    flushing m = false ->
    Forall (@undisturbed Payload) rs ->
    let planned := JsMap.size (buffer m) / batchSize o
                   + (if now >? flushExpiry m then 1 else 0) in
    planned <= Z.of_nat (length rs) ->
    let out := flush_amid now m rs in
    suspended_of out = None
    /\ Z.of_nat (length (requests (effects_of out))) <= planned
    /\ flushing (object_of out) = false.
Proof.
  intros Payload m o now rs Ho Hb Hf Hund planned Hrs out. subst out.
  assert (0 <= planned) as Hpos.
  { subst planned.
    pose proof (JsMapFacts.size_nonneg (buffer m)) as Hn.
    pose proof (Z.div_pos _ _ Hn Hb).
    destruct (now >? flushExpiry m); lia. }
  unfold flush_amid.
  rewrite (flush_planned now m o Ho ltac:(lia) Hf). fold planned.
  rewrite <- (Z2Nat.id planned Hpos).
  destruct (flush_loop now (set_flushing true m)
              (JsNum.Fin (Z.of_nat (Z.to_nat planned))) (JsMap.Iter 0))
    as [[m1 e1] k1] eqn:Hloop.
  destruct (flush_loop_ends o (Z.to_nat planned) rs now
              (set_flushing true m) (JsMap.Iter 0) [] m1 e1 k1
              Ho ltac:(lia) Hund Hloop) as (Hs & Hcount & Hflag).
  simpl in Hs, Hcount, Hflag.
  split; [exact Hs|]. split; [lia|exact Hflag].
Qed.

Lemma flush_always_ends_witness :
  let m := obj (run Demo.stringify (boot 0 Demo.opts) (Demo.sends 1 3)) in
  let all_expired := fun m : MongoDb string =>
                       set_buffer (evict 500000 (buffer m) (buffer m)) m in
  let rs := [(all_expired, 70050, superagent.rejected)] in
  let out := flush_amid 70000 m rs in
  (options m = Some Demo.opts /\ 0 < batchSize Demo.opts
   /\ flushing m = false /\ JsMap.size (buffer m) = 3
   /\ (70000 >? flushExpiry m) = true)
  /\ suspended_of out = None
  /\ Z.of_nat (length (requests (effects_of out))) <= 1
  /\ flushing (object_of out) = false.
Proof.
  intros m all_expired rs out.
  split; [repeat split; reflexivity|].
  assert (Forall (@undisturbed string) rs) as Hund.
  { repeat constructor. }
  exact (flush_always_ends string m Demo.opts 70000 rs
           eq_refl eq_refl eq_refl Hund ltac:(vm_compute; discriminate)).
Defined.

(** X11.  With [batchSize] 0 the division by zero decides.  On a
    non-empty buffer the batch count is infinite and each batch empty: the
    flush sends an empty batch and, for every answer in [200, 300), another
    one, without ever ending or removing a point.  On an empty buffer the
    count is not a number: nothing is sent, overdue or not. *)
Theorem batchSize_zero_never_delivers :
  forall (Payload : Type) (m : MongoDb Payload) (o : Options) (now : Z),
    options m = Some o ->
    batchSize o = 0 ->
    flushing m = false ->
    (0 < JsMap.size (buffer m) ->
     forall rs,
       Forall (fun tr : Z * superagent.Response => ok (snd tr) = true) rs ->
       let out := flush_alone now m rs in
       suspended_of out <> None
       /\ batches_sent (effects_of out) = repeat [] (S (length rs))
       /\ buffer (object_of out) = buffer m)
    /\ (JsMap.size (buffer m) = 0 ->
        requests (effects_of (flush now m)) = []
        /\ suspended_of (flush now m) = None).
Proof.
  intros Payload m o now Ho Hb Hf. split.
  - intros Hsize rs Hok out. subst out. unfold flush_alone, flush.
    rewrite Hf.
    change (options (set_flushing true m)) with (options m). rewrite Ho, Hb.
    change (buffer (set_flushing true m)) with (buffer m).
    unfold JsNum.floor_div. simpl (0 =? 0).
    destruct (Z.eqb_spec (JsMap.size (buffer m)) 0) as [|_]; [lia|].
    assert ((if now >? flushExpiry (set_flushing true m)
             then JsNum.succ JsNum.Inf else JsNum.Inf) = JsNum.Inf) as ->
      by (destruct (now >? flushExpiry (set_flushing true m)); reflexivity).
    rewrite (flush_loop_forever now (set_flushing true m) o (JsMap.Iter 0)
               Ho Hb).
    exact (settle_forever o Hb rs (set_flushing true m) (JsMap.Iter 0)
             [http (request o [])] Ho Hok).
  - intros Hsize. unfold flush. rewrite Hf.
    change (options (set_flushing true m)) with (options m). rewrite Ho, Hb.
    change (buffer (set_flushing true m)) with (buffer m).
    rewrite Hsize. unfold JsNum.floor_div. simpl.
    destruct (now >? flushExpiry m); split; reflexivity.
Qed.

Lemma batchSize_zero_never_delivers_witness :
  let o := {| apiUrl := apiUrl Demo.opts; apiKey := apiKey Demo.opts;
              apiMethod := apiMethod Demo.opts; batchSize := 0;
              flushSecs := flushSecs Demo.opts;
              maxBuffer := maxBuffer Demo.opts;
              ttlSecs := ttlSecs Demo.opts |} in
  let m := obj (run Demo.stringify (boot 0 o)
                    (Demo.sends 1 1 ++ [ev_settle 5 0 superagent.rejected])) in
  let rs := [(50, superagent.resolved 200); (60, superagent.resolved 200);
             (70, superagent.resolved 204)] in
  let out := flush_alone 40 m rs in
  (options m = Some o /\ batchSize o = 0 /\ flushing m = false
   /\ 0 < JsMap.size (buffer m))
  /\ suspended_of out <> None
  /\ batches_sent (effects_of out) = [[]; []; []; []]
  /\ buffer (object_of out) = buffer m.
Proof.
  intros o m rs out.
  split; [repeat split; reflexivity|].
  assert (Forall (fun tr : Z * superagent.Response => ok (snd tr) = true) rs)
    as Hok by (repeat constructor).
  exact (proj1 (batchSize_zero_never_delivers string m o 40
                  eq_refl eq_refl eq_refl) eq_refl rs Hok).
Defined.

(** X12.  A flush transmits only what is buffered: every point of a batch
    it sends is in the buffer at that moment, and stays there till the
    answer.  A batch built after a delivered one is taken from what the
    delivery left, so that it holds no point under a [uid] just
    acknowledged. *)
Theorem batches_come_from_the_buffer :
  forall (Payload : Type) (m : MongoDb Payload) (fr : FlushFrame Payload)
         (now : Z) (r : superagent.Response) (batch : list (Point Payload)),
    (In batch (batches_sent (effects_of (flush now m))) ->
     incl batch (points (buffer m))
     /\ buffer (object_of (flush now m)) = buffer m)
    /\ (In batch (batches_sent (effects_of (flush_resume now m fr r))) ->
        incl batch (points (buffer (object_of (flush_resume now m fr r))))
        /\ (well_keyed (buffer m) ->
            forall p, In p batch -> in_batch (fr_batch fr) (uid p) = false)).
Proof.
  intros Payload m fr now r batch. split.
  - unfold flush. destruct (flushing m); [intros []|].
    change (options (set_flushing true m)) with (options m).
    destruct (options m) as [o|]; [|intros []].
    intros Hin. apply flush_loop_incl in Hin. exact Hin.
  - destruct (ok r) eqn:Hr.
    + destruct r as [status|]; [|discriminate]. simpl in Hr.
      rewrite flush_resume_ok by exact Hr.
      destruct (flush_loop now
                  (set_buffer (delete_batch (fr_batch fr) (buffer m)) m)
                  (fr_batches fr) (fr_iterator fr)) as [[m2 e2] k2] eqn:Hl.
      intros Hin.
      assert (In batch (batches_sent (effects_of
                (flush_loop now
                   (set_buffer (delete_batch (fr_batch fr) (buffer m)) m)
                   (fr_batches fr) (fr_iterator fr))))) as Hin'
        by (rewrite Hl; exact Hin).
      apply flush_loop_incl in Hin'. rewrite Hl in Hin'.
      destruct Hin' as [Hincl Hbuf]. simpl in Hincl.
      split.
      * unfold object_of in *. simpl in *. rewrite Hbuf. exact Hincl.
      * intros [_ Hall] p Hp. apply Hincl in Hp.
        unfold points in Hp. apply in_map_iff in Hp.
        destruct Hp as ([k v] & Hv & He). simpl in Hv. subst v.
        rewrite entries_delete_batch in He. apply filter_In in He.
        destruct He as [He Hk]. simpl in Hk.
        rewrite Forall_forall in Hall. specialize (Hall (k, p) He).
        simpl in Hall. rewrite Hall. apply negb_true_iff. exact Hk.
    + destruct (flush_resume_failed now m fr r Hr) as (effs & -> & Hnone).
      unfold effects_of, batches_sent. simpl. rewrite Hnone. intros [].
Qed.

Lemma batches_come_from_the_buffer_witness :
  let m := obj (run Demo.stringify (boot 0 Demo.opts) (Demo.sends 1 3)) in
  batches_sent (effects_of (flush 70000 m)) = [points (buffer m)]
  /\ length (points (buffer m)) = 3%nat
  /\ incl (points (buffer m)) (points (buffer m))
  /\ buffer (object_of (flush 70000 m)) = buffer m.
Proof.
  intros m.
  assert (batches_sent (effects_of (flush 70000 m)) = [points (buffer m)])
    as Hsent by reflexivity.
  split; [exact Hsent|]. split; [reflexivity|].
  apply (proj1 (batches_come_from_the_buffer string m
                  {| fr_batches := JsNum.NaN; fr_iterator := JsMap.Done;
                     fr_batch := [] |}
                  70000 superagent.rejected (points (buffer m)))).
  rewrite Hsent. left. reflexivity.
Defined.

(** * Properties of [index.js] *)
Section PluginFacts.
Import Plugin.
Context {Value : Type}.
Implicit Types (o : Obj Value) (v : JsVal Value) (name : string)
               (tags : list (Tag Value)).

Lemma obj_get_absent name o : obj_has name o = false -> obj_get name o = None.
Proof.
  unfold obj_has. induction o as [|[n v] o IH]; simpl; [reflexivity|].
  destruct (String.eqb n name); simpl; [discriminate|exact IH].
Qed.

Lemma obj_get_set_same name v o :
  name <> "__proto__"%string -> obj_get name (obj_set name v o) = Some v.
Proof.
  intros Hp. unfold obj_set.
  destruct (String.eqb_spec name "__proto__"); [contradiction|].
  destruct (obj_has name o) eqn:H.
  - unfold obj_has in H.
    induction o as [|[n0 v0] o IH]; simpl in *; [discriminate|].
    destruct (String.eqb_spec n0 name) as [->|Hne]; simpl.
    + rewrite String.eqb_refl. reflexivity.
    + destruct (String.eqb_spec n0 name); [contradiction|]. auto.
  - pose proof (obj_get_absent name o H) as Hg. clear H.
    induction o as [|[n0 v0] o IH]; simpl in *.
    + rewrite String.eqb_refl. reflexivity.
    + destruct (String.eqb n0 name); [discriminate|auto].
Qed.

Lemma obj_get_set_other name name' v o :
  name' <> name -> obj_get name' (obj_set name v o) = obj_get name' o.
Proof.
  intros Hne. unfold obj_set.
  destruct (String.eqb name "__proto__"); [reflexivity|].
  destruct (obj_has name o).
  - induction o as [|[n0 v0] o IH]; simpl; [reflexivity|].
    destruct (String.eqb_spec n0 name) as [->|Hn0]; simpl.
    + destruct (String.eqb_spec name name'); [congruence|exact IH].
    + rewrite IH. reflexivity.
  - induction o as [|[n0 v0] o IH]; simpl.
    + destruct (String.eqb_spec name name'); [congruence|reflexivity].
    + rewrite IH. reflexivity.
Qed.


(** After the tags are added a name holds the value of the last tag so
    named, or what it held when there is none. *)
Lemma obj_get_add_tags name tags :
  name <> "__proto__"%string ->
  forall o,
    obj_get name (add_tags tags o)
    = match last_tag name tags with
      | Some v => Some v
      | None => obj_get name o
      end.
Proof.
  intros Hp. induction tags as [|tag tags IH]; intros o; [reflexivity|].
  unfold add_tags in *. simpl. rewrite IH.
  destruct (last_tag name tags); [reflexivity|].
  destruct (String.eqb_spec (tag_name tag) name) as [->|Hne].
  - apply obj_get_set_same. exact Hp.
  - apply obj_get_set_other. congruence.
Qed.


Lemma length_handleUpdates localeCompare options selfContext
    (delta : Delta Value) pathOption :
  length (handleUpdates localeCompare options selfContext delta pathOption)
  = length (all_values delta).
Proof.
  unfold handleUpdates, all_values.
  induction (updates delta) as [|update us IH]; simpl; [reflexivity|].
  rewrite !length_app, IH.
  destruct (values update); simpl; rewrite ?length_map; reflexivity.
Qed.

Lemma present_app (l1 l2 : list (Update Value * option (PathValue Value))) :
  present (l1 ++ l2) = present l1 ++ present l2.
Proof.
  induction l1 as [|[u [v|]] l1 IH]; simpl; rewrite ?IH; reflexivity.
Qed.

(** What a name holds in a payload that was built. *)
Lemma build_get localeCompare (options : TagOptions Value) selfContext
    (delta : Delta Value) pathOption update val dts pts payload name :
  defaultTags options = Some dts ->
  pathTags pathOption = Some pts ->
  build localeCompare options selfContext delta pathOption update val
  = Some payload ->
  name <> "__proto__"%string -> name <> "self"%string ->
  obj_get name payload
  = match last_tag name pts with
    | Some v => Some v
    | None =>
        match last_tag name dts with
        | Some v => Some v
        | None =>
            obj_get name
              [("source", source update);
               ("context", context_value delta);
               ("path", pv_path val);
               ("value", pv_value val);
               ("time", timestamp update)]%string
        end
    end.
Proof.
  intros Hd Hp Hb Hn Hs. unfold build in Hb. rewrite Hd, Hp in Hb.
  assert (forall tagged : Obj Value,
             payload = tagged \/ payload = obj_set "self" jtrue tagged ->
             obj_get name payload = obj_get name tagged) as Hself.
  { intros tagged [->| ->]; [reflexivity|].
    apply obj_get_set_other. exact Hs. }
  rewrite <- !obj_get_add_tags by exact Hn. apply Hself.
  destruct (tagAsSelf options); [|inversion Hb; auto].
  destruct (context delta) as [c|]; [|discriminate].
  destruct (localeCompare c _ =? 0); inversion Hb; auto.
Qed.

Lemma payloads_app (h1 h2 : list (Handled Value)) :
  payloads (h1 ++ h2) = payloads h1 ++ payloads h2.
Proof.
  induction h1 as [|[p|] h1 IH]; simpl; rewrite ?IH; reflexivity.
Qed.

End PluginFacts.





(** X15.  [handleUpdates] deals with every element of [update.values] of
    every update that has values, once and in order, and with nothing
    else: an update without values is passed over.  When the tag lists are
    there (and, with [tagAsSelf] on, the delta has a context), the payloads
    handed to [send] are, in order, those built for the elements that are
    not null, one each; so that, no tag being named [path] or [value],
    their [path] and [value] are the paths and values of the delta, in
    order.  A null element is skipped alone.  When the default tags or the
    path tags are missing, or when [tagAsSelf] is on and the delta has no
    context, building throws for every element and nothing is sent. *)
Theorem handleUpdates_sends_each_value_once :
  forall (Value : Type) (localeCompare : string -> string -> Z)
         (options : Plugin.TagOptions Value) (selfContext : option string)
         (delta : Plugin.Delta Value) (pathOption : Plugin.PathOption Value),
    let hs := Plugin.handleUpdates localeCompare options selfContext delta
                                   pathOption in
    length hs = length (Plugin.all_values delta)
    /\ (Plugin.defaultTags options = None
        \/ Plugin.pathTags pathOption = None
        \/ (Plugin.tagAsSelf options = true /\ Plugin.context delta = None) ->
        Plugin.payloads hs = [])
    /\ (forall dts pts,
          Plugin.defaultTags options = Some dts ->
          Plugin.pathTags pathOption = Some pts ->
          Plugin.tagAsSelf options = false \/ Plugin.context delta <> None ->
          Forall2 (fun payload uv =>
                     Plugin.build localeCompare options selfContext delta
                                  pathOption (fst uv) (snd uv)
                     = Some payload)
                  (Plugin.payloads hs)
                  (Plugin.present (Plugin.all_values delta))
          /\ (Plugin.last_tag "path" dts = None ->
              Plugin.last_tag "path" pts = None ->
              Plugin.last_tag "value" dts = None ->
              Plugin.last_tag "value" pts = None ->
              map (fun payload => (Plugin.obj_get "path" payload,
                                   Plugin.obj_get "value" payload))
                  (Plugin.payloads hs)
              = map (fun uv => (Some (Plugin.pv_path (snd uv)),
                                Some (Plugin.pv_value (snd uv))))
                    (Plugin.present (Plugin.all_values delta)))).
Proof.
  intros Value localeCompare options selfContext delta pathOption hs.
  split; [apply length_handleUpdates|]. split.
  - intros Hthrows.
    assert (forall update val,
               Plugin.build localeCompare options selfContext delta pathOption
                            update val = None) as Hnone.
    { intros update val. unfold Plugin.build.
      destruct (Plugin.defaultTags options) as [dts|]; [|reflexivity].
      destruct (Plugin.pathTags pathOption) as [pts|]; [|reflexivity].
      destruct Hthrows as [H|[H|[Hs Hc]]]; try discriminate.
      rewrite Hs, Hc. reflexivity. }
    subst hs. unfold Plugin.handleUpdates.
    induction (Plugin.updates delta) as [|update us IH]; simpl;
      [reflexivity|].
    rewrite payloads_app, IH, app_nil_r.
    destruct (Plugin.values update) as [vals|]; [|reflexivity].
    induction vals as [|[val|] vals IHv]; simpl; [reflexivity| |exact IHv].
    rewrite Hnone. exact IHv.
  - intros dts pts Hd Hp Hctx.
    assert (forall update val,
               exists payload,
                 Plugin.build localeCompare options selfContext delta
                              pathOption update val = Some payload) as Hsome.
    { intros update val. unfold Plugin.build. rewrite Hd, Hp.
      destruct (Plugin.tagAsSelf options); [|eexists; reflexivity].
      destruct (Plugin.context delta) as [c|].
      - destruct (localeCompare c _ =? 0); eexists; reflexivity.
      - destruct Hctx as [H|H]; [discriminate|contradiction]. }
    assert (Forall2 (fun payload uv =>
                       Plugin.build localeCompare options selfContext delta
                                    pathOption (fst uv) (snd uv)
                       = Some payload)
                    (Plugin.payloads hs)
                    (Plugin.present (Plugin.all_values delta))) as Hall.
    { subst hs. unfold Plugin.handleUpdates, Plugin.all_values.
      induction (Plugin.updates delta) as [|update us IH]; simpl;
        [constructor|].
      rewrite payloads_app, present_app. apply Forall2_app; [|exact IH].
      destruct (Plugin.values update) as [vals|]; [|constructor].
      induction vals as [|[val|] vals IHv]; simpl;
        [constructor| |exact IHv].
      destruct (Hsome update val) as (payload & Hb). rewrite Hb.
      simpl. constructor; [exact Hb|exact IHv]. }
    split; [exact Hall|].
    intros Hpd Hpp Hvd Hvp.
    induction Hall as [|payload [update val] ps uvs Hb _ IH]; simpl;
      [reflexivity|].
    simpl in Hb. rewrite IH. f_equal.
    rewrite (build_get localeCompare options selfContext delta pathOption
               update val dts pts payload "path" Hd Hp Hb)
      by discriminate.
    rewrite (build_get localeCompare options selfContext delta pathOption
               update val dts pts payload "value" Hd Hp Hb)
      by discriminate.
    rewrite Hpd, Hpp, Hvd, Hvp. reflexivity.
Qed.

Lemma handleUpdates_sends_each_value_once_witness :
  let options := {| Plugin.defaultTags :=
                      Some [{| Plugin.tag_name := "ver"%string;
                               Plugin.tag_value := @Plugin.jstring nat "1" |}];
                    Plugin.tagAsSelf := true |} in
  let hs := Plugin.handleUpdates Plugin.demo_compare options None
                                 Plugin.demo_delta Plugin.demo_path_option in
  (Plugin.context Plugin.demo_delta <> None
   /\ Plugin.all_values Plugin.demo_delta
      = [(Plugin.demo_update, Some Plugin.demo_val);
         (Plugin.demo_update, None);
         (Plugin.demo_update, Some Plugin.demo_val')])
  /\ length hs = 3%nat
  /\ map (fun payload => (Plugin.obj_get "path" payload,
                          Plugin.obj_get "value" payload))
         (Plugin.payloads hs)
     = [(Some (Plugin.jstring "navigation.speed"), Some (Plugin.other 7%nat));
        (Some (Plugin.jstring "navigation.heading"),
         Some (Plugin.other 9%nat))]
  /\ Plugin.payloads
       (Plugin.handleUpdates Plugin.demo_compare
          {| Plugin.defaultTags := None; Plugin.tagAsSelf := true |} None
          Plugin.demo_delta Plugin.demo_path_option) = [].
Proof.
  intros options hs.
  assert (Plugin.context Plugin.demo_delta <> None) as Hc by discriminate.
  split; [split; [exact Hc|reflexivity]|].
  destruct (handleUpdates_sends_each_value_once nat Plugin.demo_compare
              options None Plugin.demo_delta Plugin.demo_path_option)
    as (Hlen & _ & Hall).
  split; [exact Hlen|]. split.
  - exact (proj2 (Hall _ _ eq_refl eq_refl (or_intror Hc))
                 eq_refl eq_refl eq_refl eq_refl).
  - apply (proj1 (proj2 (handleUpdates_sends_each_value_once nat
                           Plugin.demo_compare
                           {| Plugin.defaultTags := None;
                              Plugin.tagAsSelf := true |}
                           None Plugin.demo_delta Plugin.demo_path_option))).
    left. reflexivity.
Defined.
